(** * BeeRef: utility helpers, persisted settings and widgets

    A shallow embedding of [beeref/utils.py] (palette construction,
    rectangles, rounding to a base, file-dialog format parsing, colour
    formatting, the list of actions), of the settings store that the
    widgets and the settings tests exercise, and of the widgets of
    [beeref/widgets], followed by the properties that hold of them. *)

From Stdlib Require Import ZArith Lia Ascii String.
From stdpp Require Import base option list strings gmap pretty.

Local Open Scope Z_scope.

(** ** Python results

    A Python call either returns a value or raises.  Only the exception
    classes that the modelled code can raise are listed. *)

Inductive exn : Type :=
| ValueError
| AttributeError
| TypeError
| IndexError
| KeyError
| ZeroDivisionError
| OverflowError.

Inductive result (A : Type) : Type :=
| Ok (a : A)
| Raise (e : exn).

Arguments Ok {A} a.
Arguments Raise {A} e.

Global Instance result_ret : MRet result := fun A a => Ok a.

Global Instance result_bind : MBind result := fun A B k r =>
  match r with
  | Ok a => k a
  | Raise e => Raise e
  end.

(** ** The [str] methods used by the helpers *)

Module Py.

(** [str.isspace] on one character.  Characters are code points below
    256; these are exactly the ones Python treats as white space there. *)
Definition isspace (c : ascii) : bool :=
  match c with
  | "009" | "010" | "011" | "012" | "013"
  | "028" | "029" | "030" | "031" | " "
  | "133" | "160" => true
  | _ => false
  end%char.

(** [s.split()]: the maximal runs of non-space characters, in order. *)
Fixpoint split (s : string) : list string :=
  match s with
  | EmptyString => []
  | String c s' =>
      if isspace c then split s'
      else match s' with
           | EmptyString => [String c EmptyString]
           | String c' _ =>
               if isspace c' then String c EmptyString :: split s'
               else match split s' with
                    | w :: ws => String c w :: ws
                    | [] => [String c EmptyString]
                    end
           end
  end.

(** [s.split(sep)] for a one-character separator: always at least one
    field, empty fields kept. *)
Fixpoint split_on (sep : ascii) (s : string) : list string :=
  match s with
  | EmptyString => [EmptyString]
  | String c s' =>
      if Ascii.eqb c sep then EmptyString :: split_on sep s'
      else match split_on sep s' with
           | w :: ws => String c w :: ws
           | [] => [String c EmptyString]
           end
  end.

(** [strip_prefix p s] is [Some t] when [s = p ++ t]. *)
Fixpoint strip_prefix (p s : string) : option string :=
  match p, s with
  | EmptyString, _ => Some s
  | String a p', String b s' =>
      if Ascii.eqb a b then strip_prefix p' s' else None
  | String _ _, EmptyString => None
  end.

(** [s.removeprefix(p)] *)
Definition removeprefix (p s : string) : string :=
  match strip_prefix p s with
  | Some t => t
  | None => s
  end.

(** One hexadecimal digit, lower case, as [hex] and [QColor.name] print it. *)
Definition hex_digit (d : Z) : ascii :=
  if d <? 10 then ascii_of_nat (Z.to_nat (48 + d))
  else ascii_of_nat (Z.to_nat (87 + d)).

(** The hexadecimal digits of a non-negative integer, most significant
    first, without padding.  [bits] bounds the number of digits. *)
Fixpoint hex_digits (bits : nat) (n : Z) : string :=
  match bits with
  | O => String (hex_digit (n mod 16)) EmptyString
  | S bits' =>
      if n <? 16 then String (hex_digit n) EmptyString
      else hex_digits bits' (n / 16) +:+ String (hex_digit (n mod 16)) EmptyString
  end.

(** [hex(n)] *)
Definition hex (n : Z) : string :=
  if n <? 0 then "-0x" +:+ hex_digits (Z.to_nat (Z.log2 (- n))) (- n)
  else "0x" +:+ hex_digits (Z.to_nat (Z.log2 n)) n.

End Py.

(** ** The regular expression of [get_file_extension_from_format]

    The pattern reads: any characters (greedy), a space, an opening
    parenthesis, a captured group of any characters (greedy), a closing
    parenthesis.  [re.match] matches it from the start of the string by
    backtracking: a greedy star first takes every character it can (the
    dot is any character but a line feed) and gives them back one at a
    time until the rest of the pattern matches. *)

Definition is_newline (c : ascii) : bool := Ascii.eqb c "010"%char.

(** The tail of the pattern (the group and the closing parenthesis)
    matched at the start of [r]: the captured group is the longest
    prefix of [r] free of line feeds that a closing parenthesis follows. *)
Fixpoint match_group (r : string) : option string :=
  match r with
  | EmptyString => None
  | String c r' =>
      if is_newline c then None
      else match match_group r' with
           | Some g => Some (String c g)
           | None => if Ascii.eqb c ")"%char then Some EmptyString else None
           end
  end.

(** The pattern from its space on, matched at the start of [s]. *)
Definition match_paren (s : string) : option string :=
  match s with
  | String " "%char (String "("%char r) => match_group r
  | _ => None
  end.

(** The whole pattern at the start of [s]; the result is [groups()[0]],
    or [None] when [re.match] returns [None].  The leading star prefers
    to take [c]; only when the rest cannot match from there is the space
    looked for at [c] itself. *)
Fixpoint re_match_format (s : string) : option string :=
  match s with
  | EmptyString => None
  | String c s' =>
      if is_newline c then match_paren s
      else match re_match_format s' with
           | Some g => Some g
           | None => match_paren s
           end
  end.

(** ** [beeref/utils.py] *)

Definition get_file_extension_from_format (formatstr : string) : result string :=
  match re_match_format formatstr with
  | None => Raise AttributeError
  | Some extensions =>
      match Py.split extensions with
      | [] => Raise IndexError
      | ext :: _ => Ok (Py.removeprefix "*." ext)
      end
  end.

(** ** Rounding to a base

    [number / base] is the true division of Python: on two [int]s it
    returns the [float] nearest to the exact quotient.  The integers are
    those of Python, unbounded; the [float] is an IEEE 754 binary64,
    given here by its integer mantissa and its exponent. *)

(** The integer nearest to [x / y] for positive [y], ties to the even
    one. *)
Definition round_half_even (x y : Z) : Z :=
  let q := x / y in
  let r := x mod y in
  if 2 * r <? y then q
  else if y <? 2 * r then q + 1
  else if Z.even q then q else q + 1.

(** A finite [float]: [mantissa * 2 ^ exponent], the mantissa of at most
    53 bits and the exponent at least -1074. *)
Record float : Type := mkFloat {
  mantissa : Z;
  exponent : Z
}.

(** The exponent of the binade of [a / d], for positive [a] and [d]:
    the largest [e] with [2 ^ e <= a / d]. *)
Definition log2_ratio (a d : Z) : Z :=
  let e := Z.log2 a - Z.log2 d in
  let fits := if 0 <=? e then d * 2 ^ e <=? a else d <=? a * 2 ^ (- e) in
  if fits then e else e - 1.

(** [a / b] on two [int]s: the [float] nearest to the quotient, ties to
    the even mantissa; below the normal range the exponent stays at
    -1022. *)
Definition int_true_divide (a b : Z) : result float :=
  if b =? 0 then Raise ZeroDivisionError
  else if a =? 0 then Ok (mkFloat 0 0)
  else
    let x := a * Z.sgn b in
    let d := Z.abs b in
    let e := Z.max (log2_ratio (Z.abs a) d) (-1022) in
    let ex := e - 52 in
    let m := if 0 <=? ex then round_half_even x (d * 2 ^ ex)
             else round_half_even (x * 2 ^ (- ex)) d in
    if 2 ^ 1024 <=? Z.abs m * 2 ^ ex then Raise OverflowError
    else Ok (mkFloat m ex).

(** [round(x)] on a [float]: the nearest [int], ties to the even one. *)
Definition float_round (x : float) : Z :=
  if 0 <=? exponent x then mantissa x * 2 ^ exponent x
  else round_half_even (mantissa x) (2 ^ (- exponent x)).

(** [round_to] on two [int]s. *)
Definition round_to (number base : Z) : result Z :=
  q ← int_true_divide number base;
  Ok (base * float_round q).

(** *** Numbers of either type

    [round_to] takes the numbers as they come, [int]s or [float]s.  A
    [float] operand turns the division into that of two [float]s, and a
    [float] base the product into a [float]. *)

Module Number.

(** A [float]: [mantissa * 2 ^ exponent] with its sign, the mantissa
    not negative and of at most 53 bits; an infinity; or NaN.  Zero has
    a sign as well. *)
Inductive float64 : Type :=
| Finite (negative : bool) (m : Z) (e : Z)
| Infinity (negative : bool)
| NaN.

Inductive t : Type :=
| Int (n : Z)
| Float (x : float64).

Definition is_zero (x : float64) : bool :=
  match x with
  | Finite _ m _ => m =? 0
  | _ => false
  end.

(** The [float] nearest to [x / d] for positive [x] and [d], ties to
    the even mantissa: 53 bits, fewer below the normal range, and the
    infinity from [2 ^ 1024] on. *)
Definition of_ratio (negative : bool) (x d : Z) : float64 :=
  let e := Z.max (log2_ratio x d) (-1022) in
  let ex := e - 52 in
  let m := if 0 <=? ex then round_half_even x (d * 2 ^ ex)
           else round_half_even (x * 2 ^ (- ex)) d in
  let '(m, ex) := if m =? 2 ^ 53 then (2 ^ 52, ex + 1) else (m, ex) in
  if 2 ^ 1024 <=? m * 2 ^ ex then Infinity negative
  else Finite negative m ex.

(** An [int] operand beside a [float] one: the nearest [float], and
    [OverflowError] when there is none. *)
Definition of_int (n : Z) : result float64 :=
  if n =? 0 then Ok (Finite false 0 0)
  else match of_ratio (n <? 0) (Z.abs n) 1 with
       | Infinity _ => Raise OverflowError
       | x => Ok x
       end.

Definition to_float (a : t) : result float64 :=
  match a with
  | Int n => of_int n
  | Float x => Ok x
  end.

(** [x / y] on two [float]s: a zero divisor raises, everything else
    follows IEEE 754. *)
Definition float_div (x y : float64) : result float64 :=
  if is_zero y then Raise ZeroDivisionError
  else
    Ok match x, y with
       | NaN, _ | _, NaN => NaN
       | Infinity _, Infinity _ => NaN
       | Infinity s, Finite s' _ _ => Infinity (xorb s s')
       | Finite s _ _, Infinity s' => Finite (xorb s s') 0 0
       | Finite s m e, Finite s' m' e' =>
           if m =? 0 then Finite (xorb s s') 0 0
           else of_ratio (xorb s s')
                  (m * 2 ^ Z.max (e - e') 0) (m' * 2 ^ Z.max (e' - e) 0)
       end.

(** [x * y] on two [float]s; it never raises. *)
Definition float_mul (x y : float64) : float64 :=
  match x, y with
  | NaN, _ | _, NaN => NaN
  | Infinity s, Infinity s' => Infinity (xorb s s')
  | Infinity s, Finite s' m _ | Finite s' m _, Infinity s =>
      if m =? 0 then NaN else Infinity (xorb s s')
  | Finite s m e, Finite s' m' e' =>
      if (m =? 0) || (m' =? 0) then Finite (xorb s s') 0 0
      else of_ratio (xorb s s')
             (m * m' * 2 ^ Z.max (e + e') 0) (2 ^ Z.max (- (e + e')) 0)
  end.

(** [a / b]: two [int]s are divided as such, otherwise an [int] operand
    is made a [float] first, the left one before the right one. *)
Definition truediv (a b : t) : result float64 :=
  match a, b with
  | Int a, Int b =>
      q ← int_true_divide a b;
      Ok (if mantissa q =? 0 then Finite (xorb (a <? 0) (b <? 0)) 0 0
          else Finite (mantissa q <? 0) (Z.abs (mantissa q)) (exponent q))
  | _, _ =>
      x ← to_float a;
      y ← to_float b;
      float_div x y
  end.

(** [round(x)] on a [float]: the nearest [int], ties to the even one. *)
Definition round (x : float64) : result Z :=
  match x with
  | NaN => Raise ValueError
  | Infinity _ => Raise OverflowError
  | Finite s m e =>
      let v := if 0 <=? e then m * 2 ^ e
               else round_half_even m (2 ^ (- e)) in
      Ok (if s then - v else v)
  end.

(** [base * k] for an [int] [k]. *)
Definition mul (base : t) (k : Z) : result t :=
  match base with
  | Int b => Ok (Int (b * k))
  | Float y => x ← of_int k; Ok (Float (float_mul y x))
  end.

Definition round_to (number base : t) : result t :=
  q ← truediv number base;
  k ← round q;
  mul base k.

(** The value of a finite [float] in units of [2 ^ (- u)], when it is a
    whole number of them. *)
Definition in_units (u : Z) (x : float64) : option Z :=
  match x with
  | Finite s m e =>
      if 0 <=? e + u then Some ((if s then - m else m) * 2 ^ (e + u))
      else None
  | _ => None
  end.

End Number.

(** ** File-dialog formats *)

Fixpoint string_forallb (P : ascii -> bool) (s : string) : bool :=
  match s with
  | EmptyString => true
  | String c s' => P c && string_forallb P s'
  end.

(** No line feed in [s]. *)
Definition no_newline (s : string) : bool :=
  string_forallb (fun c => negb (is_newline c)) s.

(** No white space in [s]. *)
Definition no_space (s : string) : bool :=
  string_forallb (fun c => negb (Py.isspace c)) s.

(** A space immediately followed by an opening parenthesis, somewhere in [s]. *)
Fixpoint has_open (s : string) : bool :=
  match s with
  | EmptyString => false
  | String c s' =>
      match c, s' with
      | " "%char, String "("%char _ => true
      | _, _ => has_open s'
      end
  end.

(** The glob patterns of a filter, one per extension, separated by single
    spaces: [*.ext1 *.ext2 ...]. *)
Definition globs (exts : list string) : string :=
  String.concat " " (map (fun e => "*." +:+ e) exts).

(** A Qt file-dialog filter for a format called [name]: the name, a
    space, and the glob patterns in parentheses. *)
Definition format_string (name : string) (exts : list string) : string :=
  name +:+ " (" +:+ globs exts +:+ ")".

(** ** Colours *)

(** A [QColor] in the RGB model: the four channels as [red()], [green()],
    [blue()] and [alpha()] return them, each in 0..255. *)
Record QColor : Type := mkQColor {
  isValid : bool;
  red : Z;
  green : Z;
  blue : Z;
  alpha : Z
}.

Definition channel_ok (v : Z) : bool := (0 <=? v) && (v <=? 255).

Definition QColor_ok (c : QColor) : bool :=
  channel_ok (red c) && channel_ok (green c) &&
  channel_ok (blue c) && channel_ok (alpha c).

(** Two hexadecimal digits of a channel. *)
Definition hex2 (v : Z) : string :=
  String (Py.hex_digit (v / 16)) (String (Py.hex_digit (v mod 16)) EmptyString).

(** [color.name()]: [#rrggbb]. *)
Definition QColor_name (c : QColor) : string :=
  "#" +:+ hex2 (red c) +:+ hex2 (green c) +:+ hex2 (blue c).

Definition qcolor_to_hex (color : QColor) : string :=
  if alpha color =? 255 then QColor_name color
  else
    let rgb := QColor_name color in
    let alpha := Py.removeprefix "0x" (Py.hex (alpha color)) in
    rgb +:+ alpha.

(** ** Palettes *)

(** What [getattr] finds under a name on an enumeration class: one of
    the enumeration's members, or some other attribute of the class
    (every Python class has some, such as [__doc__]). *)
Inductive attr (A : Type) : Type :=
| Member (a : A)
| Other.

Arguments Member {A} a.
Arguments Other {A}.

(** [QPalette.ColorGroup], by value.  The enumeration has one more name,
    [Normal], which is a synonym of [Active]. *)
Inductive ColorGroup : Type :=
| Active
| Disabled
| Inactive
| NColorGroups
| Current
| All.

Global Instance ColorGroup_eq_dec : EqDecision ColorGroup.
Proof. solve_decision. Defined.

Definition ColorGroup_members : list (string * ColorGroup) :=
  [("Active", Active); ("Disabled", Disabled); ("Inactive", Inactive);
   ("NColorGroups", NColorGroups); ("Current", Current); ("All", All);
   ("Normal", Active)].

(** Association-list lookup by name, first entry first. *)
Fixpoint assoc {A : Type} (key : string) (l : list (string * A)) : option A :=
  match l with
  | [] => None
  | (k, a) :: l' => if String.eqb key k then Some a else assoc key l'
  end.

(** [QColor(r, g, b)]: opaque; a channel out of range gives an invalid
    colour, with all four channels 0. *)
Definition QColor_rgb (value : Z * Z * Z) : QColor :=
  let '(r, g, b) := value in
  if channel_ok r && channel_ok g && channel_ok b
  then mkQColor true r g b 255
  else mkQColor false 0 0 0 0.

Global Instance attr_eq_dec {A : Type} `{EqDecision A} : EqDecision (attr A).
Proof. solve_decision. Defined.

Section Palette.

(** [QPalette.ColorRole] and its names belong to the toolkit; so do the
    names of the attributes that an enumeration class has besides its
    members. *)
Context {ColorRole : Type} `{EqDecision ColorRole}.
Variable ColorRole_getattr : string -> option (attr ColorRole).
Variable class_attrs : string -> bool.

(** [getattr(QtGui.QPalette.ColorGroup, name)]; [None] when [hasattr]
    is false. *)
Definition ColorGroup_getattr (name : string) : option (attr ColorGroup) :=
  match assoc name ColorGroup_members with
  | Some g => Some (Member g)
  | None => if class_attrs name then Some Other else None
  end.

(** The colours set on a palette so far, per stored group ([Active],
    [Disabled], [Inactive]) and role; [None] is the colour a fresh
    [QPalette()] has there. *)
Definition QPalette : Type := ColorGroup -> ColorRole -> option QColor.

Definition QPalette_new : QPalette := fun _ _ => None.

Definition setBrush (cg : ColorGroup) (cr : ColorRole) (c : QColor)
    (p : QPalette) : QPalette :=
  fun g r => if decide (g = cg /\ r = cr) then Some c else p g r.

(** [palette.setColor(cg, cr, c)] for a role that has a brush.  [All]
    sets the three stored groups; [Current] is the palette's current
    group, [Active] for a palette nobody changed it on; [NColorGroups]
    is reported and then treated as [Active].  The count [NColorRoles],
    which the enumeration lists after the roles, has no brush: with it
    Qt writes outside of the palette, and no value here describes
    that. *)
Definition setColor (cg : ColorGroup) (cr : ColorRole) (c : QColor)
    (p : QPalette) : QPalette :=
  match cg with
  | All => setBrush Inactive cr c (setBrush Disabled cr c (setBrush Active cr c p))
  | Current | NColorGroups => setBrush Active cr c p
  | Active | Disabled | Inactive => setBrush cg cr c p
  end.

(** The body of the loop of [create_palette_from_dict], for one item. *)
Definition set_entry (palette : QPalette) (key : string) (value : Z * Z * Z) :
    result QPalette :=
  match Py.split_on ":" key with
  | [group; role] =>
      match ColorGroup_getattr group with
      | None => Ok palette
      | Some ga =>
          match ColorRole_getattr role with
          | None => Raise AttributeError
          | Some ra =>
              let color := QColor_rgb value in
              match ga, ra with
              | Member cg, Member cr =>
                  let palette := setColor cg cr color palette in
                  if String.eqb group "Active"
                  then Ok (setColor Inactive cr color palette)
                  else Ok palette
              | _, _ => Raise TypeError
              end
          end
      end
  | _ => Raise ValueError
  end.

Fixpoint set_entries (palette : QPalette) (items : list (string * (Z * Z * Z))) :
    result QPalette :=
  match items with
  | [] => Ok palette
  | (key, value) :: items' =>
      palette' ← set_entry palette key value;
      set_entries palette' items'
  end.

(** [conf.items()] is the list of the dictionary's items in insertion
    order. *)
Definition create_palette_from_dict (conf : list (string * (Z * Z * Z))) :
    result QPalette :=
  set_entries QPalette_new conf.

(** The key's text before its first colon is a name that [hasattr]
    finds on [ColorGroup]. *)
Definition names_known_group (key : string) : bool :=
  match Py.split_on ":" key with
  | group :: _ => bool_decide (is_Some (ColorGroup_getattr group))
  | [] => false
  end.

(** The key has the form [Group:Role]: exactly one colon. *)
Definition group_role_key (key : string) : bool :=
  bool_decide (length (Py.split_on ":" key) = 2%nat).

(** A later item for role [r] that writes only one of the [Active] and
    [Inactive] colours of that role. *)
Definition writes_one_side (r : ColorRole) (key : string) : bool :=
  match Py.split_on ":" key with
  | [group; role] =>
      bool_decide (ColorRole_getattr role = Some (Member r)) &&
      bool_decide (group ∈ ["Inactive"; "Normal"; "Current"; "NColorGroups"])
  | _ => false
  end.

End Palette.

(** A few of the toolkit's role names, each standing for itself, to run
    the functions on. *)
Definition some_roles (name : string) : option (attr string) :=
  if bool_decide (name ∈ ["WindowText"; "Window"; "Base"; "Text"; "Button"])
  then Some (Member name)
  else None.

Definition no_attrs (name : string) : bool := false.

(** ** Persisted settings

    [BeeSettings] lives in [beeref/config/settings.py], which the widgets
    import and the settings tests exercise. *)

Module Settings.

(** A stored value, as the tests store them. *)
Inductive value : Type :=
| VStr (s : string)
| VInt (n : Z).

Global Instance value_eq_dec : EqDecision value.
Proof. solve_decision. Defined.

(** The declared type of a key: one of an enumerated set of strings, or
    an integer. *)
Inductive dtype : Type :=
| Enum (legal : list string)
| Int.

Record field : Type := mkField {
  default : value;
  declared : dtype
}.

(** Modelled from the spec: the table of declared keys of [BeeSettings],
    each with its static default and its legal values.  The keys and the
    options are those of the settings widgets, the defaults those the
    tests expect. *)
Definition FIELDS : list (string * field) :=
  [("Items/image_storage_format",
    mkField (VStr "best") (Enum ["best"; "png"; "jpg"]));
   ("Items/arrange_gap", mkField (VInt 0) Int)].

Definition digit_of (c : ascii) : option Z :=
  let n := Z.of_nat (nat_of_ascii c) in
  if (48 <=? n) && (n <=? 57) then Some (n - 48) else None.

(** The digits of a decimal literal: single underscores may separate
    digits. *)
Fixpoint digits (acc : Z) (after_digit : bool) (s : string) : option Z :=
  match s with
  | EmptyString => if after_digit then Some acc else None
  | String c s' =>
      match digit_of c with
      | Some d => digits (10 * acc + d) true s'
      | None =>
          if Ascii.eqb c "_"%char && after_digit then digits acc false s'
          else None
      end
  end.

(** The white space that [int] skips around the literal: that of
    [str.isspace] without the four separators 28 to 31. *)
Definition int_space (c : ascii) : bool :=
  match c with
  | "009" | "010" | "011" | "012" | "013" | " " | "133" | "160" => true
  | _ => false
  end%char.

Fixpoint lstrip (s : string) : string :=
  match s with
  | EmptyString => EmptyString
  | String c s' => if int_space c then lstrip s' else s
  end.

Fixpoint rstrip (s : string) : string :=
  match s with
  | EmptyString => EmptyString
  | String c s' =>
      match rstrip s' with
      | EmptyString => if int_space c then EmptyString else String c EmptyString
      | t => String c t
      end
  end.

(** [int(s)] for a string: white space around, an optional sign, decimal
    digits; [None] where Python raises [ValueError]. *)
Definition py_int (s : string) : option Z :=
  match rstrip (lstrip s) with
  | String "-"%char t => Z.opp <$> digits 0 false t
  | String "+"%char t => digits 0 false t
  | t => digits 0 false t
  end.

(** Modelled from the spec: the cast of a stored value to the declared
    type of its key; [None] when the value is not castable. *)
Definition cast (t : dtype) (v : value) : option value :=
  match t, v with
  | Enum legal, VStr s => if bool_decide (s ∈ legal) then Some (VStr s) else None
  | Enum _, VInt _ => None
  | Int, VInt n => Some (VInt n)
  | Int, VStr s => VInt <$> py_int s
  end.

(** [QSettings.setValue] on the key/value mapping; [value(key)] is the
    lookup. *)
Definition setValue (key : string) (v : value) (s : gmap string value) :
    gmap string value :=
  <[key := v]> s.

(** Modelled from the spec: [BeeSettings.valueOrDefault], which is not
    among the sources.  "Look up overridden value; if absent or fails to
    cast to the declared type, return the static default."  An
    undeclared key has no entry in the table. *)
Definition valueOrDefault (s : gmap string value) (key : string) : result value :=
  match assoc key FIELDS with
  | None => Raise KeyError
  | Some conf =>
      match s !! key with
      | None => Ok (default conf)
      | Some v =>
          match cast (declared conf) v with
          | Some v' => Ok v'
          | None => Ok (default conf)
          end
      end
  end.

Section RecentFiles.

(** [os.path.abspath] and [os.path.exists]: what they return depends on
    the working directory and on the files on disk. *)
Variable abspath : string -> string.
Variable path_exists : string -> bool.

(** Modelled from the spec: [BeeSettings.update_recent_files], which is
    not among the sources.  "Remove any existing occurrence of the path,
    prepend it, truncate to 10 entries."  The tests expect the stored
    path to be the absolute one. *)
Definition update_recent_files (filename : string) (files : list string) :
    list string :=
  let filename := abspath filename in
  take 10 (filename :: filter (fun f => f <> filename) files).

(** Modelled from the spec: [BeeSettings.get_recent_files], which is not
    among the sources.  Stale entries are "filtered out on request for
    existing-only lists". *)
Definition get_recent_files (existing_only : bool) (files : list string) :
    list string :=
  if existing_only then filter (fun f => path_exists f = true) files
  else files.

(** The list after the updates [filenames], oldest first, from the empty
    list. *)
Definition after_updates (filenames : list string) : list string :=
  foldl (fun files filename => update_recent_files filename files) [] filenames.

End RecentFiles.

(** The distinct paths of a history of uses, most recent use first. *)
Fixpoint mru_order (history : list string) : list string :=
  match history with
  | [] => []
  | p :: history' => p :: filter (fun f => f <> p) (mru_order history')
  end.

(** The file names of the size test, [0.bee] to [14.bee]. *)
Definition bee_files (n : nat) : list string :=
  (fun i : nat => pretty i +:+ ".bee") <$> seq 0 n.

End Settings.

(** ** Rectangles from two points *)

Module Rect.

Section Rect.

(** The coordinates are numbers of some kind: [ltb] is [<] on them and
    [sub] their difference, as their arithmetic computes it. *)
Context {R : Type}.
Variable ltb : R -> R -> bool.
Variable sub : R -> R -> R.

Record QPointF : Type := mkQPointF {
  x : R;
  y : R
}.

(** A [QRectF] keeps its left and its top edge, its width and its
    height. *)
Record QRectF : Type := mkQRectF {
  left : R;
  top : R;
  width : R;
  height : R
}.

(** [QRectF(topLeft, bottomRight)]: the width and the height are the
    differences of the coordinates. *)
Definition QRectF_corners (topLeft bottomRight : QPointF) : QRectF :=
  mkQRectF (x topLeft) (y topLeft)
    (sub (x bottomRight) (x topLeft)) (sub (y bottomRight) (y topLeft)).

(** [min(a, b)] and [max(a, b)]: the first argument stays unless the
    second is strictly smaller, or strictly greater. *)
Definition min (a b : R) : R := if ltb b a then b else a.

Definition max (a b : R) : R := if ltb a b then b else a.

Definition get_rect_from_points (point1 point2 : QPointF) : QRectF :=
  let topleft :=
    mkQPointF (min (x point1) (x point2)) (min (y point1) (y point2)) in
  let bottomright :=
    mkQPointF (max (x point1) (x point2)) (max (y point1) (y point2)) in
  QRectF_corners topleft bottomright.

(** Two coordinates that [<] orders, or that are the same. *)
Definition comparable (a b : R) : Prop :=
  ltb a b = true \/ ltb b a = true \/ a = b.

End Rect.

End Rect.

(** ** [ActionList] *)

Module ActionList.

(** The key of a subscription: an [int] or an action id. *)
Inductive key : Type :=
| Index (i : Z)
| Id (s : string).

(** [l[i]] on a list: a negative index counts from the end. *)
Definition list_getitem {A : Type} (l : list A) (i : Z) : result A :=
  let n := Z.of_nat (length l) in
  let j := if i <? 0 then i + n else i in
  if (0 <=? j) && (j <? n)
  then match l !! Z.to_nat j with
       | Some a => Ok a
       | None => Raise IndexError
       end
  else Raise IndexError.

Section ActionList.

(** An action is any object with an [id] attribute, a string. *)
Context {Action : Type}.
Variable action_id : Action -> string.

(** [d[key] = value] on an [OrderedDict], the list of its items in
    insertion order: a key that is present keeps its place. *)
Fixpoint setitem (key : string) (value : Action) (d : list (string * Action)) :
    list (string * Action) :=
  match d with
  | [] => [(key, value)]
  | (k, v) :: d' =>
      if String.eqb key k then (k, value) :: d'
      else (k, v) :: setitem key value d'
  end.

(** [ActionList(actions)] *)
Definition init (actions : list Action) : list (string * Action) :=
  foldl (fun self action => setitem (action_id action) action self) [] actions.

(** [self[key]] *)
Definition getitem (self : list (string * Action)) (key : key) : result Action :=
  key ← match key with
        | Index i => list_getitem (map fst self) i
        | Id s => Ok s
        end;
  match assoc key self with
  | Some action => Ok action
  | None => Raise KeyError
  end.

End ActionList.

(** The distinct elements of a list, each at its first occurrence. *)
Fixpoint first_occurrences (l : list string) : list string :=
  match l with
  | [] => []
  | s :: l' => s :: filter (fun t => t <> s) (first_occurrences l')
  end.

End ActionList.

(** ** Keys of a palette dictionary, by role *)

Section PaletteRoles.

Context {ColorRole : Type} `{EqDecision ColorRole}.
Variable ColorRole_getattr : string -> option (attr ColorRole).

(** The key has the form [Group:Role] and its role name is the one of
    role [r]. *)
Definition names_role (r : ColorRole) (key : string) : bool :=
  match Py.split_on ":" key with
  | [_; role] => bool_decide (ColorRole_getattr role = Some (Member r))
  | _ => false
  end.

End PaletteRoles.

(** * The widgets

    The widgets of [beeref.widgets], as far as their own code goes: the
    state they keep, and the calls of Qt that read or change it. *)

(** ** Values and widgets of Qt *)

(** An [int] argument of a method of Qt: a Python [int] outside of the
    32 bits of a C [int] is refused with [OverflowError]. *)
Definition c_int (v : Z) : result Z :=
  if (- 2 ^ 31 <=? v) && (v <? 2 ^ 31) then Ok v else Raise OverflowError.

Module QSize.

Record t : Type := mk {
  width : Z;
  height : Z
}.

End QSize.

Module QSpinBox.

Record t : Type := mk {
  minimum : Z;
  maximum : Z;
  value : Z
}.

(** [QSpinBox()]: the range is 0 to 99 and the value 0. *)
Definition new : t := mk 0 99 0.

(** A value brought into the range of the box. *)
Definition bound (sb : t) (v : Z) : Z :=
  let v := if v <? minimum sb then minimum sb else v in
  if maximum sb <? v then maximum sb else v.

(** [setValue]: the box afterwards and, when the value has changed, the
    value that [valueChanged] is emitted with. *)
Definition setValue (v : Z) (sb : t) : t * option Z :=
  let v' := bound sb v in
  (mk (minimum sb) (maximum sb) v',
   if v' =? value sb then None else Some v').

(** [setRange]: a maximum below the minimum is the minimum; the value
    is brought into the new range. *)
Definition setRange (min max : Z) (sb : t) : t * option Z :=
  let sb := mk min (if min <? max then max else min) (value sb) in
  setValue (value sb) sb.

Definition setMinimum (min : Z) (sb : t) : t * option Z :=
  setRange min (if min <? maximum sb then maximum sb else min) sb.

End QSpinBox.

(** ** [RecentFilesView] *)

Module RecentFilesView.

(** [sum], [max] and [range] of Python, on [int]s: [max] keeps the
    first of the greatest values and raises [ValueError] when there is
    none. *)
Definition sum (l : list Z) : Z := foldl Z.add 0 l.

Definition max (l : list Z) : result Z :=
  match l with
  | [] => Raise ValueError
  | a :: l' => Ok (foldl (fun m b => if m <? b then b else m) a l')
  end.

Definition range (n : nat) : list Z := Z.of_nat <$> seq 0 n.

Section RecentFilesView.

(** The size hints of [QListView] for a row and for a column. *)
Variable sizeHintForRow : Z -> Z.
Variable sizeHintForColumn : Z -> Z.

Definition sizeHint (files : list string) : result QSize.t :=
  let height :=
    sum ((fun i => sizeHintForRow i + 2) <$> range (length files)) in
  width ← max (sizeHintForColumn <$> range (length files));
  height ← c_int height;
  width ← c_int (width + 2);
  Ok (QSize.mk width height).

End RecentFilesView.

End RecentFilesView.

(** ** [WelcomeOverlay] *)

Module WelcomeOverlay.

(** The items of the overlay's horizontal layout. *)
Inductive item : Type :=
| Stretch (factor : Z)
| HelpText
| FilesLayout.

Global Instance item_eq_dec : EqDecision item.
Proof. solve_decision. Defined.

(** [layout.indexOf(x)]: the position of the item, or -1. *)
Fixpoint indexOf (x : item) (layout : list item) : Z :=
  match layout with
  | [] => -1
  | i :: layout' =>
      if decide (i = x) then 0
      else let n := indexOf x layout' in if n <? 0 then -1 else n + 1
  end.

Record t : Type := mk {
  files : list string;
  layout : list item;
  visible : bool
}.

(** [WelcomeOverlay(parent)]: [files] are those of [files_view], none
    yet, and its layout is not in the overlay's. *)
Definition init : t := mk [] [Stretch 50; HelpText; Stretch 50] false.

(** [show], [recent] being what [get_recent_files(existing_only=True)]
    returns. *)
Definition show (recent : list string) (self : t) : t :=
  let files := recent in
  let self := mk files (layout self) (visible self) in
  let self :=
    if negb (bool_decide (files = [])) && (indexOf FilesLayout (layout self) <? 0)
    then mk (WelcomeOverlay.files self) (FilesLayout :: layout self) (visible self)
    else self in
  mk (WelcomeOverlay.files self) (layout self) true.

(** The overlay after it was shown once for each of the lists, the first
    one first. *)
Definition shown (recents : list (list string)) : t :=
  foldl (fun self recent => show recent self) init recents.

End WelcomeOverlay.

(** ** [SceneToPixmapExporterDialog] *)

Module SceneToPixmapExporterDialog.

Definition MIN_SIZE : Z := 10.
Definition MAX_SIZE : Z := 100000.

Record t : Type := mk {
  default_size : QSize.t;
  ignore_change : bool;
  width_input : QSpinBox.t;
  height_input : QSpinBox.t
}.

Definition set_ignore_change (b : bool) (self : t) : t :=
  mk (default_size self) b (width_input self) (height_input self).

(** [value()] *)
Definition value (self : t) : QSize.t :=
  QSize.mk (QSpinBox.value (width_input self))
           (QSpinBox.value (height_input self)).

(** An input of the dialog: the range of the sizes, and a value in it. *)
Definition sized (sb : QSpinBox.t) : Prop :=
  QSpinBox.minimum sb = MIN_SIZE /\ QSpinBox.maximum sb = MAX_SIZE /\
  MIN_SIZE <= QSpinBox.value sb <= MAX_SIZE.

Definition settled (self : t) : Prop :=
  ignore_change self = false /\
  sized (width_input self) /\ sized (height_input self).

(** [self.width_input.setValue(v)] and [self.height_input.setValue(v)]
    once the signals are connected: a changed value is passed to the
    slot before the call returns. *)
Definition width_input_setValue (slot : Z -> t -> option t) (v : Z) (self : t) :
    option t :=
  let '(input, signal) := QSpinBox.setValue v (width_input self) in
  let self := mk (default_size self) (ignore_change self) input (height_input self) in
  match signal with
  | Some v' => slot v' self
  | None => Some self
  end.

Definition height_input_setValue (slot : Z -> t -> option t) (v : Z) (self : t) :
    option t :=
  let '(input, signal) := QSpinBox.setValue v (height_input self) in
  let self := mk (default_size self) (ignore_change self) (width_input self) input in
  match signal with
  | Some v' => slot v' self
  | None => Some self
  end.

Section SceneToPixmapExporterDialog.

(** [size.scaled(w, h, Qt.AspectRatioMode.KeepAspectRatio)] *)
Variable scaled : QSize.t -> Z -> Z -> QSize.t.

(** [SceneToPixmapExporterDialog(parent, default_size)]: [scale] changes
    the size in place, and the inputs are filled before their signals
    are connected. *)
Definition init (default_size : QSize.t) : t :=
  let default_size :=
    if (MAX_SIZE <? QSize.width default_size)
       || (MAX_SIZE <=? QSize.width default_size)
    then scaled default_size MAX_SIZE MAX_SIZE
    else default_size in
  let width_input := QSpinBox.new in
  let width_input := (QSpinBox.setRange MIN_SIZE MAX_SIZE width_input).1 in
  let width_input := (QSpinBox.setValue (QSize.width default_size) width_input).1 in
  let height_input := QSpinBox.new in
  let height_input := (QSpinBox.setMinimum 10 height_input).1 in
  let height_input := (QSpinBox.setRange MIN_SIZE MAX_SIZE height_input).1 in
  let height_input := (QSpinBox.setValue (QSize.height default_size) height_input).1 in
  mk default_size false width_input height_input.

(** The two slots call each other through the inputs; [fuel] bounds the
    depth of the calls. *)
Fixpoint on_width_changed (fuel : nat) (width : Z) (self : t) {struct fuel} :
    option t :=
  match fuel with
  | O => None
  | S fuel =>
      if negb (ignore_change self) then
        let self := set_ignore_change true self in
        let new := scaled (default_size self) width MAX_SIZE in
        self ← height_input_setValue (on_height_changed fuel) (QSize.height new) self;
        Some (set_ignore_change false self)
      else Some self
  end
with on_height_changed (fuel : nat) (height : Z) (self : t) {struct fuel} :
    option t :=
  match fuel with
  | O => None
  | S fuel =>
      if negb (ignore_change self) then
        let self := set_ignore_change true self in
        let new := scaled (default_size self) MAX_SIZE height in
        self ← width_input_setValue (on_width_changed fuel) (QSize.width new) self;
        Some (set_ignore_change false self)
      else Some self
  end.

(** What the user does: a new value in one of the inputs. *)
Inductive edit : Type :=
| Width (v : Z)
| Height (v : Z).

Definition apply_edit (fuel : nat) (e : edit) (self : t) : option t :=
  match e with
  | Width v => width_input_setValue (on_width_changed fuel) v self
  | Height v => height_input_setValue (on_height_changed fuel) v self
  end.

Fixpoint apply_edits (fuel : nat) (es : list edit) (self : t) : option t :=
  match es with
  | [] => Some self
  | e :: es' => self ← apply_edit fuel e self; apply_edits fuel es' self
  end.

End SceneToPixmapExporterDialog.

End SceneToPixmapExporterDialog.

(** ** [IntegerGroup] *)

Module IntegerGroup.

Record t : Type := mk {
  title : string;
  ignore_value_changed : bool;
  input : QSpinBox.t
}.

Section IntegerGroup.

(** [BeeSettings] is not among the sources: the stored settings are a
    state of any kind, read and written through the three methods that
    the group calls. *)
Context {Store : Type}.
Variable valueOrDefault : Store -> string -> Z.
Variable setValue : string -> Z -> Store -> Store.
Variable value_changed : Store -> string -> bool.

(** [constants.CHANGED_SYMBOL] *)
Variable CHANGED_SYMBOL : string.

(** The attributes of the class. *)
Variable TITLE : string.
Variable KEY : string.
Variable MIN : Z.
Variable MAX : Z.

Definition update_title (settings : Store) (self : t) : t :=
  let title :=
    if value_changed settings KEY then TITLE +:+ " " +:+ CHANGED_SYMBOL
    else TITLE in
  mk title (ignore_value_changed self) (input self).

Definition on_value_changed (value : Z) (state : Store * t) : Store * t :=
  let '(settings, self) := state in
  if ignore_value_changed self then state
  else if bool_decide (value <> valueOrDefault settings KEY) then
    let settings := setValue KEY value settings in
    (settings, update_title settings self)
  else state.

(** [self.input.setValue(v)] once [valueChanged] is connected. *)
Definition input_setValue (v : Z) (state : Store * t) :
    result (Store * t) :=
  let '(settings, self) := state in
  v ← c_int v;
  let '(input, signal) := QSpinBox.setValue v (input self) in
  let self := mk (title self) (ignore_value_changed self) input in
  match signal with
  | Some v' => Ok (on_value_changed v' (settings, self))
  | None => Ok (settings, self)
  end.

(** [IntegerGroup()]: the input gets its value, then its range, and only
    then is the signal connected. *)
Definition init (settings : Store) : result t :=
  let self := update_title settings (mk EmptyString false QSpinBox.new) in
  let input := QSpinBox.new in
  v ← c_int (valueOrDefault settings KEY);
  let input := (QSpinBox.setValue v input).1 in
  min ← c_int MIN;
  max ← c_int MAX;
  let input := (QSpinBox.setRange min max input).1 in
  Ok (mk (title self) false input).

Definition on_restore_defaults (state : Store * t) : result (Store * t) :=
  let '(settings, self) := state in
  let new_value := valueOrDefault settings KEY in
  let self := mk (title self) true (input self) in
  '(settings, self) ← input_setValue new_value (settings, self);
  let self := mk (title self) false (input self) in
  Ok (settings, update_title settings self).

End IntegerGroup.

End IntegerGroup.

(** * Tests

    The examples of the docstrings and the cases of the settings tests,
    run on the definitions. *)

Example get_file_extension_jpeg :
  get_file_extension_from_format "JPEG (*.jpg *.jpeg)" = Ok "jpg".
Proof. reflexivity. Qed.

Example get_file_extension_nested :
  get_file_extension_from_format "Images (all) (*.png *.gif)" = Ok "png".
Proof. reflexivity. Qed.

Example get_file_extension_no_parens :
  get_file_extension_from_format "JPEG" = Raise AttributeError.
Proof. reflexivity. Qed.

Example hex_examples :
  Py.hex 0 = "0x0" /\ Py.hex 5 = "0x5" /\ Py.hex 16 = "0x10" /\
  Py.hex 254 = "0xfe" /\ Py.hex 4096 = "0x1000" /\ Py.hex (-255) = "-0xff".
Proof. repeat split; reflexivity. Qed.

Example format_string_jpeg :
  format_string "JPEG" ["jpg"; "jpeg"] = "JPEG (*.jpg *.jpeg)".
Proof. reflexivity. Qed.

Example round_to_examples :
  round_to 7 5 = Ok 5 /\ round_to 8 5 = Ok 10 /\ round_to (-7) 5 = Ok (-5) /\
  round_to 5 10 = Ok 0 /\ round_to 15 10 = Ok 20 /\ round_to 7 (-5) = Ok 5 /\
  round_to 7 0 = Raise ZeroDivisionError /\
  round_to (2 ^ 1100) 1 = Raise OverflowError.
Proof. repeat split; vm_compute; reflexivity. Qed.

Example round_to_large :
  round_to (2 ^ 53 + 1) 1 = Ok (2 ^ 53) /\
  round_to 6755399441055748 3 = Ok 6755399441055750.
Proof. split; vm_compute; reflexivity. Qed.

(** The [float]s 7.3, 0.75, 0.1 and 0.8 by their mantissa and
    exponent, as [float.hex] gives them. *)
Example round_to_numbers :
  let f7_3 := Number.Finite false 8219069319951155 (-50) in
  let f0_75 := Number.Finite false 3 (-2) in
  let f0_1 := Number.Finite false 3602879701896397 (-55) in
  let f0_8 := Number.Finite false 7205759403792794 (-53) in
  Number.round_to (Number.Int 7) (Number.Int 5) = Ok (Number.Int 5) /\
  Number.round_to (Number.Float f7_3) (Number.Int 5) = Ok (Number.Int 5) /\
  Number.round_to (Number.Int 7) (Number.Float (Number.Finite false 5 0))
    = Ok (Number.Float (Number.Finite false (5 * 2 ^ 50) (-50))) /\
  Number.round_to (Number.Float f0_75) (Number.Float f0_1)
    = Ok (Number.Float f0_8) /\
  Number.round_to (Number.Float f0_75) (Number.Float (Number.Finite false 1 (-2)))
    = Ok (Number.Float (Number.Finite false (3 * 2 ^ 51) (-53))) /\
  Number.round_to (Number.Float (Number.Finite false 1 0))
    (Number.Float (Number.Finite true 5 0))
    = Ok (Number.Float (Number.Finite true 0 0)) /\
  Number.round_to (Number.Float (Number.Finite false 1 0))
    (Number.Float (Number.Infinity false)) = Ok (Number.Float Number.NaN) /\
  Number.round_to (Number.Float Number.NaN) (Number.Int 1) = Raise ValueError /\
  Number.round_to (Number.Float (Number.Infinity false)) (Number.Int 1)
    = Raise OverflowError /\
  Number.round_to (Number.Int 5) (Number.Float (Number.Finite true 0 0))
    = Raise ZeroDivisionError /\
  Number.round_to (Number.Int (10 ^ 400)) (Number.Float (Number.Finite false 0 0))
    = Raise OverflowError.
Proof. cbv zeta. repeat split; vm_compute; reflexivity. Qed.

Example qcolor_to_hex_opaque :
  qcolor_to_hex (mkQColor true 255 0 16 255) = "#ff0010".
Proof. reflexivity. Qed.

Example qcolor_to_hex_transparent :
  qcolor_to_hex (mkQColor true 255 0 16 128) = "#ff001080" /\
  qcolor_to_hex (mkQColor true 255 0 16 5) = "#ff00105".
Proof. split; reflexivity. Qed.

Example create_palette_docstring :
  exists p,
    create_palette_from_dict some_roles no_attrs
      [("Active:WindowText", (80, 100, 0))] = Ok p /\
    p Active "WindowText" = Some (mkQColor true 80 100 0 255) /\
    p Inactive "WindowText" = Some (mkQColor true 80 100 0 255) /\
    p Disabled "WindowText" = None.
Proof. eexists. split; [reflexivity|]. repeat split. Qed.

Example py_int_examples :
  Settings.py_int "5" = Some 5 /\ Settings.py_int " -12 " = Some (-12) /\
  Settings.py_int "1_000" = Some 1000 /\ Settings.py_int "foo" = None /\
  Settings.py_int "" = None /\ Settings.py_int "1__0" = None /\
  Settings.py_int "5_" = None /\ Settings.py_int "+" = None.
Proof. repeat split. Qed.

Example valueOrDefault_tests :
  Settings.valueOrDefault ∅ "Items/image_storage_format"
    = Ok (Settings.VStr "best") /\
  Settings.valueOrDefault
    (Settings.setValue "Items/image_storage_format" (Settings.VStr "png") ∅)
    "Items/image_storage_format" = Ok (Settings.VStr "png") /\
  Settings.valueOrDefault
    (Settings.setValue "Items/image_storage_format" (Settings.VStr "foo") ∅)
    "Items/image_storage_format" = Ok (Settings.VStr "best") /\
  Settings.valueOrDefault
    (Settings.setValue "Items/arrange_gap" (Settings.VStr "5") ∅)
    "Items/arrange_gap" = Ok (Settings.VInt 5) /\
  Settings.valueOrDefault
    (Settings.setValue "Items/arrange_gap" (Settings.VStr "foo") ∅)
    "Items/arrange_gap" = Ok (Settings.VInt 0).
Proof. repeat split. Qed.

Example update_recent_files_tests :
  Settings.after_updates id ["foo.bee"; "bar.bee"] = ["bar.bee"; "foo.bee"] /\
  Settings.after_updates id ["foo.bee"; "bar.bee"; "foo.bee"]
    = ["foo.bee"; "bar.bee"].
Proof. split; reflexivity. Qed.

Example get_rect_from_points_corners :
  Rect.get_rect_from_points Z.ltb Z.sub (Rect.mkQPointF 5 1) (Rect.mkQPointF 2 7)
    = Rect.mkQRectF 2 1 3 6.
Proof. reflexivity. Qed.

Example ActionList_subscriptions :
  let actions := ["open"; "save"; "quit"; "save"] in
  ActionList.init (fun a => a) actions
    = [("open", "open"); ("save", "save"); ("quit", "quit")] /\
  ActionList.getitem (ActionList.init (fun a => a) actions) (ActionList.Index 1)
    = Ok "save" /\
  ActionList.getitem (ActionList.init (fun a => a) actions) (ActionList.Index (-1))
    = Ok "quit" /\
  ActionList.getitem (ActionList.init (fun a => a) actions) (ActionList.Index 3)
    = Raise IndexError /\
  ActionList.getitem (ActionList.init (fun a => a) actions) (ActionList.Id "exit")
    = Raise KeyError.
Proof. repeat split. Qed.

Example sizeHint_examples :
  RecentFilesView.sizeHint (fun _ => 20) (fun i => 60 + 10 * i)
    ["a.bee"; "b.bee"; "c.bee"] = Ok (QSize.mk 82 66) /\
  RecentFilesView.sizeHint (fun _ => 20) (fun _ => 60) [] = Raise ValueError.
Proof. split; reflexivity. Qed.

Example WelcomeOverlay_shows :
  WelcomeOverlay.layout (WelcomeOverlay.shown [[]])
    = [WelcomeOverlay.Stretch 50; WelcomeOverlay.HelpText; WelcomeOverlay.Stretch 50] /\
  WelcomeOverlay.shown [[]; ["a.bee"]; ["b.bee"; "a.bee"]; []]
    = WelcomeOverlay.mk []
        [WelcomeOverlay.FilesLayout; WelcomeOverlay.Stretch 50;
         WelcomeOverlay.HelpText; WelcomeOverlay.Stretch 50] true.
Proof. split; reflexivity. Qed.

Example SceneToPixmapExporterDialog_edits :
  let scaled := fun (size : QSize.t) (w h : Z) =>
    if w * QSize.height size <=? h * QSize.width size
    then QSize.mk w (w * QSize.height size / QSize.width size)
    else QSize.mk (h * QSize.width size / QSize.height size) h in
  let self := SceneToPixmapExporterDialog.init scaled (QSize.mk 800 600) in
  SceneToPixmapExporterDialog.value self = QSize.mk 800 600 /\
  SceneToPixmapExporterDialog.value
    <$> SceneToPixmapExporterDialog.apply_edits scaled 2
          [SceneToPixmapExporterDialog.Width 400] self
    = Some (QSize.mk 400 300) /\
  SceneToPixmapExporterDialog.value
    <$> SceneToPixmapExporterDialog.apply_edits scaled 2
          [SceneToPixmapExporterDialog.Width 400;
           SceneToPixmapExporterDialog.Height 5] self
    = Some (QSize.mk 13 10).
Proof. repeat split. Qed.

Example ArrangeGapWidget_shows :
  let init := IntegerGroup.init (fun (s : Z) (_ : string) => s)
                (fun (s : Z) (_ : string) => negb (s =? 0)) "*" "Arrange Gap:"
                "Items/arrange_gap" 0 200 in
  init 0 = Ok (IntegerGroup.mk "Arrange Gap:" false (QSpinBox.mk 0 200 0)) /\
  init 25 = Ok (IntegerGroup.mk "Arrange Gap: *" false (QSpinBox.mk 0 200 25)) /\
  init 150 = Ok (IntegerGroup.mk "Arrange Gap: *" false (QSpinBox.mk 0 200 99)) /\
  init (2 ^ 31) = Raise OverflowError.
Proof. repeat split. Qed.

(** * Properties *)

(** ** The file extension of a format *)

Section FormatLemmas.

Local Arguments String.append : simpl nomatch.

Lemma app_String c s t : String c s +:+ t = String c (s +:+ t).
Proof. reflexivity. Qed.

Lemma app_empty_r (s : string) : s +:+ EmptyString = s.
Proof. induction s as [|c s IH]; simpl; [reflexivity | by rewrite IH]. Qed.

Lemma app_assoc_string (s t u : string) : (s +:+ t) +:+ u = s +:+ (t +:+ u).
Proof. induction s as [|c s IH]; simpl; [reflexivity | by rewrite IH]. Qed.

Lemma no_space_no_newline s : no_space s = true -> no_newline s = true.
Proof.
  unfold no_space, no_newline.
  induction s as [|c s IH]; simpl; [done|].
  intros [Hc Hs]%andb_true_iff. rewrite IH by done.
  rewrite andb_true_r. unfold is_newline.
  destruct (Ascii.eqb_spec c "010"%char) as [->|]; [done | done].
Qed.

Lemma no_newline_app s t :
  no_newline (s +:+ t) = no_newline s && no_newline t.
Proof.
  unfold no_newline. induction s as [|c s IH]; simpl; [done|].
  by rewrite IH, andb_assoc.
Qed.

(** The group takes everything up to the last closing parenthesis. *)
Lemma match_group_all r :
  no_newline r = true -> match_group (r +:+ ")") = Some r.
Proof.
  unfold no_newline. induction r as [|c r IH]; simpl; [done|].
  intros [Hc Hr]%andb_true_iff. rewrite IH by done.
  by apply negb_true_iff in Hc as ->.
Qed.

Lemma re_match_format_String c s :
  re_match_format (String c s) =
  if is_newline c then match_paren (String c s)
  else match re_match_format s with
       | Some g => Some g
       | None => match_paren (String c s)
       end.
Proof. reflexivity. Qed.

Lemma match_paren_no_open c s :
  has_open (String c s) = false ->
  has_open s = false /\ match_paren (String c s) = None.
Proof.
  intros H.
  destruct c as [[] [] [] [] [] [] [] []]; try (split; [exact H | reflexivity]).
  destruct s as [|[[] [] [] [] [] [] [] []] s]; try (split; [exact H | reflexivity]).
  discriminate H.
Qed.

(** Without a space followed by a parenthesis the pattern cannot match. *)
Lemma re_match_format_no_open s :
  has_open s = false -> re_match_format s = None.
Proof.
  induction s as [|c s IH]; [done|].
  intros [Hs Hc]%match_paren_no_open.
  rewrite re_match_format_String, Hc, (IH Hs). by destruct (is_newline c).
Qed.

Lemma has_open_no_space_app w s :
  no_space w = true -> has_open (w +:+ s) = has_open s.
Proof.
  unfold no_space. induction w as [|c w IH]; [done|].
  simpl. intros [Hc Hw]%andb_true_iff. rewrite <- (IH Hw).
  destruct c as [[] [] [] [] [] [] [] []]; try reflexivity.
  discriminate Hc.
Qed.

Lemma no_space_app w v :
  no_space (w +:+ v) = no_space w && no_space v.
Proof.
  unfold no_space. induction w as [|c w IH]; simpl; [done|].
  by rewrite IH, andb_assoc.
Qed.

Lemma globs_cons e e' exts :
  globs (e :: e' :: exts) = ("*." +:+ e) +:+ " " +:+ globs (e' :: exts).
Proof. reflexivity. Qed.

Lemma globs_star e exts : exists t, globs (e :: exts) = String "*" t.
Proof. destruct exts; eexists; reflexivity. Qed.

Lemma has_open_globs exts :
  Forall (fun e => no_space e = true) exts ->
  has_open (globs exts +:+ ")") = false.
Proof.
  induction 1 as [|e exts He _ IH]; [done|].
  assert (no_space ("*." +:+ e) = true) as Hw by (by rewrite no_space_app, He).
  destruct exts as [|e' exts].
  - change (globs [e]) with ("*." +:+ e).
    by rewrite has_open_no_space_app.
  - rewrite globs_cons, !app_assoc_string, <- (app_assoc_string "*." e).
    rewrite has_open_no_space_app by done.
    destruct (globs_star e' exts) as [t Ht]. rewrite Ht in IH |- *.
    exact IH.
Qed.

Lemma no_newline_globs exts :
  Forall (fun e => no_space e = true) exts ->
  no_newline (globs exts) = true.
Proof.
  induction 1 as [|e exts He _ IH]; [done|].
  assert (no_newline ("*." +:+ e) = true) as Hw.
  { apply no_space_no_newline. by rewrite no_space_app, He. }
  destruct exts as [|e' exts]; [exact Hw|].
  by rewrite globs_cons, no_newline_app, Hw, no_newline_app, IH.
Qed.

(** The leading star backtracks to the last space-parenthesis pair. *)
Lemma re_match_format_last name inner :
  no_newline name = true ->
  no_newline inner = true ->
  has_open (inner +:+ ")") = false ->
  re_match_format (name +:+ " (" +:+ inner +:+ ")") = Some inner.
Proof.
  intros Hname Hinner Hopen. unfold no_newline in Hname.
  induction name as [|c name IH].
  - change (re_match_format (String " " (String "(" (inner +:+ ")"))) = Some inner).
    rewrite re_match_format_String.
    rewrite (re_match_format_no_open (String "(" (inner +:+ ")"))) by exact Hopen.
    change (match_group (inner +:+ ")") = Some inner).
    by apply match_group_all.
  - simpl in Hname. apply andb_true_iff in Hname as [Hc Hname].
    rewrite app_String, re_match_format_String, (IH Hname).
    by apply negb_true_iff in Hc as ->.
Qed.

(** The first white-space separated field of a string that starts with a
    word. *)
Lemma split_word w s :
  no_space w = true -> w <> EmptyString ->
  match s with EmptyString => True | String c _ => Py.isspace c = true end ->
  Py.split (w +:+ s) = w :: Py.split s.
Proof.
  unfold no_space. induction w as [|c w IH]; [done|].
  intros [Hc Hw]%andb_true_iff%(fun H => H) _ Hs.
  apply negb_true_iff in Hc.
  destruct w as [|c2 w].
  - change (Py.split (String c s) = String c EmptyString :: Py.split s).
    cbn [Py.split]. rewrite Hc.
    destruct s as [|c' s]; [done|]. by rewrite Hs.
  - rewrite app_String. cbn [Py.split]. rewrite Hc.
    rewrite app_String.
    assert (Py.isspace c2 = false) as ->.
    { simpl in Hw. apply andb_true_iff in Hw as [H2 _]. by apply negb_true_iff. }
    rewrite <- app_String, IH by done. done.
Qed.

Lemma split_globs e exts :
  Forall (fun e => no_space e = true) (e :: exts) ->
  exists ws, Py.split (globs (e :: exts)) = ("*." +:+ e) :: ws.
Proof.
  intros [He Hexts]%Forall_cons.
  assert (no_space ("*." +:+ e) = true) as Hw by (by rewrite no_space_app, He).
  destruct exts as [|e' exts].
  - exists []. change (globs [e]) with ("*." +:+ e).
    rewrite <- (app_empty_r ("*." +:+ e)) at 1.
    by rewrite split_word.
  - eexists. rewrite globs_cons. by rewrite split_word.
Qed.

End FormatLemmas.

(** The first field between the parentheses, whatever white space but a
    line feed separates the fields. *)
Lemma get_file_extension_from_format_field (name inner field : string)
    (fields : list string) :
  no_newline name = true ->
  no_newline inner = true ->
  has_open (inner +:+ ")") = false ->
  Py.split inner = field :: fields ->
  get_file_extension_from_format (name +:+ " (" +:+ inner +:+ ")")
    = Ok (Py.removeprefix "*." field).
Proof.
  intros Hname Hinner Hopen Hsplit. unfold get_file_extension_from_format.
  by rewrite re_match_format_last, Hsplit.
Qed.

(** C7: on a file-dialog format made of a name without line feed, a
    space, and one or more glob patterns [*.ext] in parentheses that
    single spaces separate, [get_file_extension_from_format] returns the
    first extension, its [*.] prefix removed. *)
Theorem get_file_extension_from_format_first (name ext : string) (exts : list string) :
  no_newline name = true ->
  Forall (fun e => no_space e = true) (ext :: exts) ->
  get_file_extension_from_format (format_string name (ext :: exts)) = Ok ext.
Proof.
  intros Hname Hexts.
  destruct (split_globs ext exts Hexts) as [ws Hsplit].
  unfold format_string.
  rewrite (get_file_extension_from_format_field _ _ _ _ Hname
             (no_newline_globs _ Hexts) (has_open_globs _ Hexts) Hsplit).
  reflexivity.
Qed.

Lemma get_file_extension_from_format_first_witness :
  get_file_extension_from_format "JPEG (*.jpg *.jpeg)" = Ok "jpg".
Proof.
  apply (get_file_extension_from_format_first "JPEG" "jpg" ["jpeg"]).
  - reflexivity.
  - repeat constructor.
Defined.

(** ** Rounding to a base *)

Lemma round_half_even_bounds x y :
  0 < y -> - y <= 2 * x - 2 * round_half_even x y * y <= y.
Proof.
  intros Hy. unfold round_half_even.
  pose proof (Z.div_mod x y ltac:(lia)) as Hx.
  pose proof (Z.mod_pos_bound x y Hy) as Hr.
  destruct (Z.ltb_spec (2 * (x mod y)) y); [nia|].
  destruct (Z.ltb_spec y (2 * (x mod y))); [nia|].
  destruct (Z.even (x / y)); nia.
Qed.

Lemma round_half_even_unique x y j :
  0 < y -> - y < 2 * x - 2 * j * y < y -> round_half_even x y = j.
Proof.
  intros Hy Hj. unfold round_half_even.
  pose proof (Z.div_mod x y ltac:(lia)) as Hx.
  pose proof (Z.mod_pos_bound x y Hy) as Hr.
  assert (x / y = j \/ x / y = j - 1) as [Hq|Hq] by nia.
  - destruct (Z.ltb_spec (2 * (x mod y)) y); [done | nia].
  - destruct (Z.ltb_spec (2 * (x mod y)) y); [nia|].
    destruct (Z.ltb_spec y (2 * (x mod y))); [lia | nia].
Qed.

Lemma round_half_even_nearest x y k :
  0 < y ->
  Z.abs (round_half_even x y * y - x) <= Z.abs (k * y - x).
Proof.
  intros Hy. pose proof (round_half_even_bounds x y Hy) as Hj.
  destruct (Z.eq_dec k (round_half_even x y)) as [->|Hne]; [lia|].
  nia.
Qed.

Lemma round_half_even_scale x y c :
  0 < y -> 0 < c -> round_half_even (x * c) (y * c) = round_half_even x y.
Proof.
  intros Hy Hc. unfold round_half_even.
  rewrite Z.div_mul_cancel_r, Z.mul_mod_distr_r by lia.
  set (r := x mod y).
  assert ((2 * (r * c) <? y * c) = (2 * r <? y)) as ->.
  { destruct (Z.ltb_spec (2 * r) y), (Z.ltb_spec (2 * (r * c)) (y * c)); nia || done. }
  assert ((y * c <? 2 * (r * c)) = (y <? 2 * r)) as ->.
  { destruct (Z.ltb_spec y (2 * r)), (Z.ltb_spec (y * c) (2 * (r * c))); nia || done. }
  done.
Qed.

Lemma round_half_even_exact t y : 0 < y -> round_half_even (t * y) y = t.
Proof. intros Hy. apply round_half_even_unique; [done | lia]. Qed.

(** Rounding to a multiple of [1 / K] first does not change the nearest
    integer, as long as the denominator is below [K]. *)
Lemma round_half_even_twice x d K :
  0 < d -> 0 < K -> d < 2 * K ->
  round_half_even (round_half_even (x * (2 * K)) d) (2 * K) = round_half_even x d.
Proof.
  intros Hd HK HdK.
  destruct (Z.eq_dec ((2 * x) mod d) 0) as [Hmod|Hmod].
  - apply Z.mod_divide in Hmod as [t Ht]; [|lia].
    replace (x * (2 * K)) with (t * K * d) by lia.
    rewrite round_half_even_exact by done.
    rewrite <- (round_half_even_scale x d 2) by lia.
    replace (x * 2) with (t * d) by lia.
    rewrite (Z.mul_comm d 2), (round_half_even_scale t 2 d) by lia.
    apply round_half_even_scale; lia.
  - pose proof (round_half_even_bounds x d Hd) as Hj.
    set (j := round_half_even x d) in *.
    assert (2 * x - 2 * j * d <> d /\ 2 * x - 2 * j * d <> - d) as [Hn1 Hn2].
    { split; intros Heq; apply Hmod.
      - replace (2 * x) with ((2 * j + 1) * d) by lia. apply Z.mod_mul. lia.
      - replace (2 * x) with ((2 * j - 1) * d) by lia. apply Z.mod_mul. lia. }
    pose proof (round_half_even_bounds (x * (2 * K)) d Hd) as Hm.
    set (m := round_half_even (x * (2 * K)) d) in *.
    apply round_half_even_unique; [lia|].
    assert (- (d - 1) <= 2 * x - 2 * j * d <= d - 1) as Hj' by lia.
    nia.
Qed.

(** A quotient below one half of [1 / K] rounds to zero both ways. *)
Lemma round_half_even_tiny x d K :
  0 < K -> K <= d -> 2 * Z.abs x < K ->
  round_half_even (round_half_even (x * K) d) K = 0 /\
  round_half_even x d = 0.
Proof.
  intros HK HKd Hx.
  assert (0 < d) as Hd by lia.
  pose proof (round_half_even_bounds (x * K) d Hd) as Hm.
  split; apply round_half_even_unique; try lia.
  set (m := round_half_even (x * K) d) in *.
  assert (Z.abs m <= Z.abs x) by nia. lia.
Qed.

Lemma log2_ratio_le a d e :
  0 < a -> 0 < d -> log2_ratio a d = e -> 0 <= e -> d * 2 ^ e <= a.
Proof.
  intros Ha Hd. unfold log2_ratio.
  set (e0 := Z.log2 a - Z.log2 d).
  destruct (Z.leb_spec 0 e0) as [He0|He0].
  - destruct (Z.leb_spec (d * 2 ^ e0) a); intros <- He; [done|].
    pose proof (Z.log2_spec a Ha) as [Hla _].
    pose proof (Z.log2_spec d Hd) as [_ Hld].
    assert (2 ^ Z.log2 a = 2 ^ (e0 - 1) * 2 ^ Z.succ (Z.log2 d)) as Hpow.
    { rewrite <- Z.pow_add_r by (pose proof (Z.log2_nonneg d); lia).
      f_equal. lia. }
    assert (0 < 2 ^ (e0 - 1)) by (apply Z.pow_pos_nonneg; lia).
    nia.
  - destruct (d <=? a * 2 ^ (- e0)); intros <- He; lia.
Qed.

Lemma log2_ratio_upper a d : 0 < a -> 0 < d -> log2_ratio a d <= Z.log2 a.
Proof.
  intros Ha Hd. unfold log2_ratio. pose proof (Z.log2_nonneg d).
  destruct (if 0 <=? Z.log2 a - Z.log2 d then _ else _); lia.
Qed.

Lemma int_true_divide_round number base :
  base <> 0 -> Z.abs number < 2 ^ 52 ->
  exists q, int_true_divide number base = Ok q /\
            float_round q = round_half_even (number * Z.sgn base) (Z.abs base).
Proof.
  intros Hbase Hnumber. unfold int_true_divide.
  destruct (Z.eqb_spec base 0) as [|_]; [done|].
  assert (0 < Z.abs base) as Hd by lia.
  destruct (Z.eqb_spec number 0) as [->|Hn0].
  { eexists. split; [done|]. change (float_round (mkFloat 0 0)) with 0.
    symmetry. apply round_half_even_unique; [done | lia]. }
  set (x := number * Z.sgn base). set (d := Z.abs base) in *.
  assert (Z.abs x = Z.abs number) as Hx by (unfold x; lia).
  assert (0 < Z.abs number) as Ha by lia.
  pose proof (log2_ratio_upper (Z.abs number) d Ha Hd) as Hup.
  assert (Z.log2 (Z.abs number) < 52) as Hlog by (by apply Z.log2_lt_pow2).
  set (e := log2_ratio (Z.abs number) d) in *.
  set (e' := Z.max e (-1022)).
  assert (e' - 52 < 0) as Hex by lia.
  destruct (Z.leb_spec 0 (e' - 52)) as [|_]; [lia|].
  set (m := round_half_even (x * 2 ^ (- (e' - 52))) d).
  rewrite (Z.pow_neg_r 2 (e' - 52)) by done. rewrite Z.mul_0_r.
  destruct (Z.leb_spec (2 ^ 1024) 0) as [Hbig|_]; [done|].
  eexists. split; [done|]. unfold float_round. cbn [exponent mantissa].
  destruct (Z.leb_spec 0 (e' - 52)) as [|_]; [lia|]. unfold m.
  assert (2 ^ (- (e' - 52)) = 2 * 2 ^ (51 - e')) as HK.
  { rewrite <- (Z.pow_succ_r 2) by lia. f_equal. lia. }
  assert (0 < 2 ^ (51 - e')) as HKpos by (apply Z.pow_pos_nonneg; lia).
  destruct (Z.lt_ge_cases d (2 * 2 ^ (51 - e'))) as [Hlt|Hge].
  - rewrite HK. by apply round_half_even_twice.
  - destruct (round_half_even_tiny x d (2 ^ (- (e' - 52)))) as [-> ->];
      [lia | lia | | done].
    destruct (Z.le_gt_cases 0 e') as [Hpos|Hneg].
    + exfalso. assert (e = e') as He by lia.
      pose proof (log2_ratio_le (Z.abs number) d e' Ha Hd He Hpos) as Hle.
      assert (2 ^ 52 = 2 * 2 ^ (51 - e') * 2 ^ e') as H52.
      { rewrite <- Z.pow_succ_r, <- Z.pow_add_r by lia. f_equal. lia. }
      assert (0 < 2 ^ e') by (apply Z.pow_pos_nonneg; lia).
      nia.
    + assert (2 ^ 53 <= 2 ^ (- (e' - 52))) by (apply Z.pow_le_mono_r; lia).
      lia.
Qed.

Lemma round_half_even_opp x y :
  0 < y -> round_half_even (- x) y = - round_half_even x y.
Proof.
  intros Hy. unfold round_half_even.
  pose proof (Z.mod_pos_bound x y Hy) as Hr.
  destruct (Z.eq_dec (x mod y) 0) as [H0|Hn0].
  - rewrite Z.div_opp_l_z, Z.mod_opp_l_z, H0 by lia.
    destruct (Z.ltb_spec (2 * 0) y); lia.
  - rewrite Z.div_opp_l_nz, Z.mod_opp_l_nz by lia.
    set (q := x / y). set (r := x mod y) in *.
    destruct (Z.ltb_spec (2 * (y - r)) y), (Z.ltb_spec (2 * r) y),
             (Z.ltb_spec y (2 * (y - r))), (Z.ltb_spec y (2 * r)); try lia.
    replace (- q - 1) with (- (q + 1)) by lia.
    rewrite Z.even_opp, Z.even_add. change (Z.even 1) with false.
    destruct (Z.even q); simpl; lia.
Qed.

(** [round] on the quotient of two [int]s is [float_round]. *)
Lemma round_quotient (q : float) (zero_negative : bool) :
  Number.round
    (if mantissa q =? 0 then Number.Finite zero_negative 0 0
     else Number.Finite (mantissa q <? 0) (Z.abs (mantissa q)) (exponent q))
  = Ok (float_round q).
Proof.
  destruct q as [m e]. unfold float_round. cbn [mantissa exponent].
  destruct (Z.eqb_spec m 0) as [->|Hm].
  - cbn [Number.round]. f_equal. destruct (Z.leb_spec 0 e); cbn.
    + by destruct zero_negative.
    + assert (round_half_even 0 (2 ^ (- e)) = 0) as ->
        by (apply round_half_even_unique;
            [apply Z.pow_pos_nonneg; lia | assert (0 < 2 ^ (- e))
               by (apply Z.pow_pos_nonneg; lia); lia]).
      by destruct zero_negative.
  - cbn [Number.round]. f_equal. destruct (Z.ltb_spec m 0).
    + rewrite (Z.abs_neq m) by lia. destruct (Z.leb_spec 0 e); [lia|].
      rewrite round_half_even_opp by (apply Z.pow_pos_nonneg; lia). lia.
    + by rewrite (Z.abs_eq m) by lia.
Qed.

(** On two [int]s, [Number.round_to] is [round_to]. *)
Lemma round_to_Int (number base : Z) :
  Number.round_to (Number.Int number) (Number.Int base)
    = r ← round_to number base; Ok (Number.Int r).
Proof.
  unfold Number.round_to, round_to. cbn [Number.truediv].
  destruct (int_true_divide number base) as [q|e]; [|done].
  cbn [mbind result_bind]. by rewrite round_quotient.
Qed.




Example round_to_base_five :
  round_to (5 * (2 ^ 53 + 1)) 5 = Ok (5 * 2 ^ 53).
Proof. vm_compute; reflexivity. Qed.

(** ** Colours *)

Section ColourLemmas.

Local Arguments String.append : simpl nomatch.

Lemma length_app_string (s t : string) :
  String.length (s +:+ t) = (String.length s + String.length t)%nat.
Proof. induction s as [|c s IH]; simpl; [reflexivity | by rewrite IH]. Qed.

Lemma QColor_name_length c : String.length (QColor_name c) = 7%nat.
Proof. reflexivity. Qed.

Lemma hex_digits_small fuel v :
  0 <= v < 16 -> Py.hex_digits fuel v = String (Py.hex_digit v) EmptyString.
Proof.
  intros Hv. destruct fuel as [|fuel]; simpl.
  - by rewrite Z.mod_small.
  - destruct (Z.ltb_spec v 16); [done | lia].
Qed.

(** The digit bound of [hex] is enough: more of it changes nothing. *)
Lemma hex_digits_fuel fuel v :
  0 <= v -> Z.log2 v <= Z.of_nat fuel ->
  Py.hex_digits (S fuel) v = Py.hex_digits fuel v.
Proof.
  revert v. induction fuel as [|fuel IH]; intros v Hv Hlog.
  - assert (v < 2) as Hlt.
    { destruct (Z.eq_dec v 0) as [->|]; [done|].
      apply (Z.log2_lt_pow2 v 1); lia. }
    simpl. destruct (Z.ltb_spec v 16); [|lia]. by rewrite Z.mod_small by lia.
  - change (Py.hex_digits (S (S fuel)) v) with
      (if v <? 16 then String (Py.hex_digit v) EmptyString
       else Py.hex_digits (S fuel) (v / 16)
              +:+ String (Py.hex_digit (v mod 16)) EmptyString).
    change (Py.hex_digits (S fuel) v) with
      (if v <? 16 then String (Py.hex_digit v) EmptyString
       else Py.hex_digits fuel (v / 16)
              +:+ String (Py.hex_digit (v mod 16)) EmptyString).
    destruct (Z.ltb_spec v 16); [done|].
    rewrite IH; [done | apply Z.div_pos; lia |].
    assert (0 < v / 16) as Hpos by (apply Z.div_str_pos; lia).
    assert (v / 16 < 2 ^ Z.of_nat (S fuel)) as Hlt;
      [|apply (Z.log2_lt_pow2 _ _ Hpos) in Hlt; lia].
    apply Z.div_lt_upper_bound; [lia|].
    assert (v < 2 ^ Z.succ (Z.log2 v)) as Hup by (apply Z.log2_spec; lia).
    assert (2 ^ Z.succ (Z.log2 v) <= 2 ^ Z.succ (Z.of_nat (S fuel))) as Hmono
      by (apply Z.pow_le_mono_r; lia).
    rewrite (Z.pow_succ_r 2 (Z.of_nat (S fuel))) in Hmono by lia.
    pose proof (Z.pow_nonneg 2 (Z.of_nat (S fuel))). lia.
Qed.

Lemma hex_small v :
  0 <= v < 16 ->
  Py.removeprefix "0x" (Py.hex v) = String (Py.hex_digit v) EmptyString.
Proof.
  intros Hv. unfold Py.hex.
  destruct (Z.ltb_spec v 0); [lia|].
  rewrite hex_digits_small by done. reflexivity.
Qed.

Lemma hex_two v :
  16 <= v < 256 -> Py.removeprefix "0x" (Py.hex v) = hex2 v.
Proof.
  intros Hv. unfold Py.hex.
  destruct (Z.ltb_spec v 0); [lia|].
  assert (4 <= Z.log2 v) as Hlog by (apply Z.log2_le_pow2; simpl; lia).
  destruct (Z.to_nat (Z.log2 v)) as [|fuel] eqn:Hfuel; [lia|].
  cbn [Py.hex_digits].
  destruct (Z.ltb_spec v 16); [lia|].
  rewrite hex_digits_small by
    (split; [apply Z.div_pos; lia | apply Z.div_lt_upper_bound; lia]).
  reflexivity.
Qed.

End ColourLemmas.

(** C10: [qcolor_to_hex] returns the seven-character [#rrggbb] name
    exactly when alpha is 255.  Below 255 the name is followed by alpha
    in lower-case hexadecimal without padding: two digits (nine
    characters in all) from 16 to 254, one digit (eight characters)
    below 16. *)
Theorem qcolor_to_hex_alpha (c : QColor) :
  QColor_ok c = true ->
  String.length (QColor_name c) = 7%nat /\
  (qcolor_to_hex c = QColor_name c <-> alpha c = 255) /\
  (16 <= alpha c <= 254 ->
     qcolor_to_hex c = QColor_name c +:+ hex2 (alpha c) /\
     String.length (qcolor_to_hex c) = 9%nat) /\
  (alpha c < 16 ->
     qcolor_to_hex c =
       QColor_name c +:+ String (Py.hex_digit (alpha c)) EmptyString /\
     String.length (qcolor_to_hex c) = 8%nat).
Proof.
  unfold QColor_ok, channel_ok. intros Hok.
  assert (0 <= alpha c <= 255) as Ha.
  { apply andb_true_iff in Hok as [_ Hok]. apply andb_true_iff in Hok. lia. }
  clear Hok.
  assert (16 <= alpha c <= 254 ->
          qcolor_to_hex c = QColor_name c +:+ hex2 (alpha c)) as Htwo.
  { intros Hr. unfold qcolor_to_hex.
    destruct (Z.eqb_spec (alpha c) 255); [lia|]. by rewrite hex_two by lia. }
  assert (alpha c < 16 ->
          qcolor_to_hex c =
          QColor_name c +:+ String (Py.hex_digit (alpha c)) EmptyString) as Hone.
  { intros Hr. unfold qcolor_to_hex.
    destruct (Z.eqb_spec (alpha c) 255); [lia|]. by rewrite hex_small by lia. }
  split; [apply QColor_name_length|]. split; [split|split].
  - intros Heq. destruct (Z.eq_dec (alpha c) 255) as [|Hne]; [done|].
    exfalso. apply (f_equal String.length) in Heq.
    destruct (Z.lt_ge_cases (alpha c) 16).
    + rewrite Hone, length_app_string, QColor_name_length in Heq by done.
      discriminate Heq.
    + rewrite Htwo, length_app_string, QColor_name_length in Heq by lia.
      discriminate Heq.
  - intros Heq. unfold qcolor_to_hex. by rewrite Heq.
  - intros Hr. split; [by apply Htwo|].
    by rewrite Htwo, length_app_string, QColor_name_length.
  - intros Hr. split; [by apply Hone|].
    by rewrite Hone, length_app_string, QColor_name_length.
Qed.

Lemma qcolor_to_hex_alpha_witness :
  qcolor_to_hex (mkQColor true 18 52 86 10) = "#123456a" /\
  String.length (qcolor_to_hex (mkQColor true 18 52 86 10)) = 8%nat.
Proof.
  destruct (qcolor_to_hex_alpha (mkQColor true 18 52 86 10) eq_refl)
    as (_ & _ & _ & Hone).
  apply Hone. reflexivity.
Defined.

(** ** Palettes *)

Section PaletteLemmas.

Context {ColorRole : Type} `{EqDecision ColorRole}.
Variable ColorRole_getattr : string -> option (attr ColorRole).
Variable class_attrs : string -> bool.

Abbreviation set_entry := (set_entry ColorRole_getattr class_attrs).
Abbreviation set_entries := (set_entries ColorRole_getattr class_attrs).
Abbreviation create_palette_from_dict :=
  (create_palette_from_dict ColorRole_getattr class_attrs).
Abbreviation names_known_group := (names_known_group class_attrs).
Abbreviation writes_one_side := (writes_one_side ColorRole_getattr).

Lemma split_on_nonempty sep s : Py.split_on sep s <> [].
Proof.
  destruct s as [|c s]; simpl; [done|].
  destruct (Ascii.eqb c sep); [done|]. by destruct (Py.split_on sep s).
Qed.

Lemma split_on_single sep s w : Py.split_on sep s = [w] -> w = s.
Proof.
  revert w. induction s as [|c s IH]; simpl; intros w Hw.
  - by injection Hw.
  - destruct (Ascii.eqb c sep).
    + injection Hw as _ Hnil. by apply split_on_nonempty in Hnil.
    + destruct (Py.split_on sep s) as [|w' ws] eqn:Hs;
        [by apply split_on_nonempty in Hs|].
      injection Hw as <- ->. by rewrite (IH w').
Qed.

Lemma split_on_Active role :
  Py.split_on ":" ("Active:" +:+ role) = "Active" :: Py.split_on ":" role.
Proof. reflexivity. Qed.

Lemma set_entry_unknown_group palette key value :
  group_role_key key = true ->
  names_known_group key = false ->
  set_entry palette key value = Ok palette.
Proof.
  unfold group_role_key, names_known_group, set_entry.
  intros Hlen%bool_decide_eq_true Hknown.
  destruct (Py.split_on ":" key) as [|group [|role [|? ?]]]; try done.
  apply bool_decide_eq_false in Hknown.
  destruct (ColorGroup_getattr class_attrs group); [|done].
  exfalso. by apply Hknown.
Qed.

Lemma set_entries_filter_known palette conf :
  Forall (fun kv => group_role_key kv.1 = true) conf ->
  set_entries palette conf =
  set_entries palette (filter (fun kv => names_known_group kv.1 = true) conf).
Proof.
  intros Hconf. revert palette.
  induction Hconf as [|[key value] conf Hkey _ IH]; intros palette; [done|].
  simpl in Hkey. destruct (names_known_group key) eqn:Hknown.
  - rewrite filter_cons_True by done. simpl.
    destruct (set_entry palette key value); simpl; [apply IH | done].
  - rewrite filter_cons_False by (simpl; congruence). simpl.
    rewrite set_entry_unknown_group by done. simpl. apply IH.
Qed.

(** C4, as the code has it: in a dictionary whose keys all have the form
    [Group:Role], an item whose group name [hasattr] does not find on
    [ColorGroup] changes nothing and raises nothing, and the result (a
    palette, or the exception another item raises) is the one of the
    dictionary without those items. *)
Theorem create_palette_from_dict_unknown_groups (conf : list (string * (Z * Z * Z))) :
  Forall (fun kv => group_role_key kv.1 = true) conf ->
  create_palette_from_dict conf =
    create_palette_from_dict
      (filter (fun kv => names_known_group kv.1 = true) conf) /\
  (forall palette key value,
     (key, value) ∈ conf -> names_known_group key = false ->
     set_entry palette key value = Ok palette).
Proof.
  intros Hconf. split.
  - by apply set_entries_filter_known.
  - intros palette key value Hin Hknown.
    apply set_entry_unknown_group; [|done].
    rewrite Forall_forall in Hconf. by apply (Hconf (key, value)).
Qed.

Lemma set_entries_app palette conf1 conf2 :
  set_entries palette (conf1 ++ conf2) =
  (palette' ← set_entries palette conf1; set_entries palette' conf2).
Proof.
  revert palette. induction conf1 as [|[key value] conf1 IH]; intros palette; [done|].
  simpl. destruct (set_entry palette key value); simpl; [apply IH | done].
Qed.

Lemma setBrush_other_role cg (cr : ColorRole) c (p : QPalette) g r :
  r <> cr -> setBrush cg cr c p g r = p g r.
Proof.
  intros Hr. unfold setBrush.
  destruct (decide (g = cg /\ r = cr)) as [[_ ?]|]; done.
Qed.

Lemma setColor_other_role cg (cr : ColorRole) c (p : QPalette) g r :
  r <> cr -> setColor cg cr c p g r = p g r.
Proof.
  intros Hr. unfold setColor.
  destruct cg; by rewrite !setBrush_other_role.
Qed.

(** The item [Active:Role] sets both colours of the role. *)
Lemma set_entry_Active palette palette' role (r : ColorRole) value :
  ColorRole_getattr role = Some (Member r) ->
  set_entry palette ("Active:" +:+ role) value = Ok palette' ->
  palette' Active r = Some (QColor_rgb value) /\
  palette' Inactive r = Some (QColor_rgb value).
Proof.
  intros Hrole. unfold set_entry. rewrite split_on_Active.
  destruct (Py.split_on ":" role) as [|role' [|? ?]] eqn:Hs; try done.
  apply split_on_single in Hs as ->.
  change (ColorGroup_getattr class_attrs "Active") with (Some (Member Active)).
  rewrite Hrole. cbn [String.eqb Ascii.eqb Bool.eqb]. intros [= <-].
  unfold setColor, setBrush. split; repeat case_decide; naive_solver.
Qed.

Lemma ColorGroup_getattr_Member group cg :
  ColorGroup_getattr class_attrs group = Some (Member cg) ->
  (group = "Active" /\ cg = Active) \/ (group = "Disabled" /\ cg = Disabled) \/
  (group = "All" /\ cg = All) \/
  group ∈ ["Inactive"; "Normal"; "Current"; "NColorGroups"].
Proof.
  unfold ColorGroup_getattr, ColorGroup_members. cbn [assoc].
  repeat match goal with
  | |- context [String.eqb group ?n] =>
      destruct (String.eqb_spec group n) as [->|]
  end;
  try (intros [= <-]; set_solver).
  by destruct (class_attrs group).
Qed.

(** An item that does not write one side only keeps the two colours of
    role [r] equal. *)
Lemma set_entry_keeps_equal (r : ColorRole) palette palette' key value :
  writes_one_side r key = false ->
  set_entry palette key value = Ok palette' ->
  palette Active r = palette Inactive r -> is_Some (palette Active r) ->
  palette' Active r = palette' Inactive r /\ is_Some (palette' Active r).
Proof.
  unfold writes_one_side, set_entry. intros Hside Hset Heq Hsome.
  destruct (Py.split_on ":" key) as [|group [|role [|? ?]]]; try done.
  destruct (ColorGroup_getattr class_attrs group) as [[cg|]|] eqn:Hg;
    [| by destruct (ColorRole_getattr role) | by injection Hset as <-].
  destruct (ColorRole_getattr role) as [[cr|]|] eqn:Hrole; try done.
  destruct (decide (cr = r)) as [->|Hne].
  - rewrite bool_decide_eq_true_2 in Hside by done. simpl in Hside.
    apply bool_decide_eq_false in Hside.
    destruct Hsome as [c' Hc']. rewrite Hc' in Heq. symmetry in Heq.
    destruct (ColorGroup_getattr_Member group cg Hg)
      as [[-> ->]|[[-> ->]|[[-> ->]|Hin]]]; [| | |done];
      cbv zeta in Hset; cbn [String.eqb Ascii.eqb Bool.eqb] in Hset;
      injection Hset as <-; unfold setColor, setBrush;
      split; repeat destruct (decide _); rewrite ?Hc', ?Heq;
      first [done | exfalso; intuition congruence].
  - assert (forall g, palette' g r = palette g r) as Hsame.
    { intros g. apply not_eq_sym in Hne. cbv zeta in Hset.
      destruct (String.eqb group "Active"); injection Hset as <-;
        by rewrite ?setBrush_other_role, setColor_other_role by done. }
    by rewrite !Hsame.
Qed.

Lemma set_entries_keep_equal (r : ColorRole) conf palette palette' :
  Forall (fun kv => writes_one_side r kv.1 = false) conf ->
  set_entries palette conf = Ok palette' ->
  palette Active r = palette Inactive r -> is_Some (palette Active r) ->
  palette' Active r = palette' Inactive r /\ is_Some (palette' Active r).
Proof.
  intros Hconf. revert palette.
  induction Hconf as [|[key value] conf Hkey _ IH]; intros palette; simpl.
  - by intros [= <-].
  - destruct (set_entry palette key value) as [p1|] eqn:Hset; simpl; [|done].
    intros Hrest Heq Hsome.
    destruct (set_entry_keeps_equal r palette p1 key value Hkey Hset Heq Hsome).
    by apply (IH p1).
Qed.

(** C9, as the code has it: an item [Active:Role] sets the colour of the
    role in the [Inactive] group as well, and in the returned palette
    the [Active] and [Inactive] colours of the role are equal unless a
    later item for the same role names one of the groups [Inactive],
    [Normal], [Current] or [NColorGroups], which write one of the two
    only. *)
Theorem create_palette_from_dict_active_sets_inactive
    (conf1 conf2 : list (string * (Z * Z * Z))) (role : string) (r : ColorRole)
    (value : Z * Z * Z) (palette : QPalette) :
  ColorRole_getattr role = Some (Member r) ->
  Forall (fun kv => writes_one_side r kv.1 = false) conf2 ->
  create_palette_from_dict (conf1 ++ ("Active:" +:+ role, value) :: conf2)
    = Ok palette ->
  (forall p p', set_entry p ("Active:" +:+ role) value = Ok p' ->
     p' Active r = Some (QColor_rgb value) /\
     p' Inactive r = Some (QColor_rgb value)) /\
  palette Active r = palette Inactive r /\ is_Some (palette Active r).
Proof.
  intros Hrole Hlater Hrun. split.
  - intros p p'. by apply set_entry_Active.
  - change (set_entries QPalette_new
              (conf1 ++ ("Active:" +:+ role, value) :: conf2) = Ok palette) in Hrun.
    rewrite set_entries_app in Hrun.
    destruct (set_entries QPalette_new conf1) as [p1|]; [|done].
    simpl in Hrun.
    destruct (set_entry p1 ("Active:" +:+ role) value) as [p2|] eqn:Hset; [|done].
    simpl in Hrun.
    destruct (set_entry_Active p1 p2 role r value Hrole Hset) as [Ha Hi].
    apply (set_entries_keep_equal r conf2 p2); [done | done | congruence |].
    by rewrite Ha.
Qed.

End PaletteLemmas.

Lemma create_palette_from_dict_unknown_groups_witness :
  create_palette_from_dict some_roles no_attrs
    [("Bogus:Window", (1, 2, 3)); ("Active:Text", (80, 100, 0));
     ("Selected:Nothing", (0, 0, 0))] =
  create_palette_from_dict some_roles no_attrs [("Active:Text", (80, 100, 0))].
Proof.
  apply (create_palette_from_dict_unknown_groups some_roles no_attrs
           [("Bogus:Window", (1, 2, 3)); ("Active:Text", (80, 100, 0));
            ("Selected:Nothing", (0, 0, 0))]).
  repeat constructor.
Defined.

(** C4, as stated, fails on a key without a colon: it names no colour
    group, and unpacking the split key raises [ValueError], where the
    dictionary without the item gives the fresh palette. *)
Lemma create_palette_from_dict_no_colon :
  names_known_group no_attrs "Bogus" = false /\
  create_palette_from_dict some_roles no_attrs [("Bogus", (1, 2, 3))] =
    Raise ValueError /\
  create_palette_from_dict some_roles no_attrs
    (filter (fun kv => names_known_group no_attrs kv.1 = true)
       [("Bogus", (1, 2, 3))]) = Ok QPalette_new.
Proof. repeat split. Qed.

Lemma create_palette_from_dict_active_sets_inactive_witness :
  exists palette,
    create_palette_from_dict some_roles no_attrs
      [("Inactive:Window", (9, 9, 9)); ("Active:Window", (1, 2, 3));
       ("Disabled:Window", (4, 5, 6)); ("Active:Text", (7, 8, 9))] = Ok palette /\
    palette Active "Window" = palette Inactive "Window" /\
    is_Some (palette Active "Window").
Proof.
  eexists. split; [reflexivity|].
  apply (create_palette_from_dict_active_sets_inactive some_roles no_attrs
           [("Inactive:Window", (9, 9, 9))]
           [("Disabled:Window", (4, 5, 6)); ("Active:Text", (7, 8, 9))]
           "Window" "Window" (1, 2, 3)).
  - reflexivity.
  - repeat constructor.
  - reflexivity.
Defined.

(** C9, as stated, fails when a later item names the role under
    [Normal], the synonym of [Active]: the [Active] colour is replaced,
    the [Inactive] one is not, and no later key is [Inactive:Window]. *)
Lemma create_palette_from_dict_normal_overrides :
  exists palette,
    create_palette_from_dict some_roles no_attrs
      [("Active:Window", (1, 2, 3)); ("Normal:Window", (4, 5, 6))] = Ok palette /\
    palette Active "Window" = Some (mkQColor true 4 5 6 255) /\
    palette Inactive "Window" = Some (mkQColor true 1 2 3 255) /\
    "Inactive:Window" ∉ map fst [("Normal:Window", (4, 5, 6))].
Proof.
  eexists. split; [reflexivity|]. repeat split.
  by intros ?%list_elem_of_singleton.
Qed.

(** ** Settings *)

Section SettingsLemmas.

Import Settings.

(** C1: for a declared key, [valueOrDefault] returns the stored value
    cast to the declared type when there is one and the cast succeeds,
    and the static default when nothing is stored or the stored value
    does not cast; a string outside the enumeration for
    [Items/image_storage_format] and a string that is no number for
    [Items/arrange_gap] both give the default. *)
Theorem valueOrDefault_cast_or_default
    (s : gmap string value) (key : string) (conf : field) :
  assoc key FIELDS = Some conf ->
  (forall v v', s !! key = Some v -> cast (declared conf) v = Some v' ->
     valueOrDefault s key = Ok v') /\
  (s !! key = None -> valueOrDefault s key = Ok (default conf)) /\
  (forall v, s !! key = Some v -> cast (declared conf) v = None ->
     valueOrDefault s key = Ok (default conf)) /\
  (forall str, str ∉ ["best"; "png"; "jpg"] ->
     valueOrDefault (setValue "Items/image_storage_format" (VStr str) s)
       "Items/image_storage_format" = Ok (VStr "best")) /\
  (forall str, py_int str = None ->
     valueOrDefault (setValue "Items/arrange_gap" (VStr str) s)
       "Items/arrange_gap" = Ok (VInt 0)).
Proof.
  intros Hconf. unfold valueOrDefault. rewrite Hconf.
  split; [|split; [|split; [|split]]].
  - by intros v v' -> ->.
  - by intros ->.
  - by intros v -> ->.
  - intros str Hstr. unfold setValue.
    change (assoc "Items/image_storage_format" FIELDS)
      with (Some (mkField (VStr "best") (Enum ["best"; "png"; "jpg"]))).
    rewrite lookup_insert_eq. cbn [declared default cast].
    by rewrite bool_decide_eq_false_2.
  - intros str Hstr. unfold setValue.
    change (assoc "Items/arrange_gap" FIELDS) with (Some (mkField (VInt 0) Int)).
    rewrite lookup_insert_eq. cbn [declared default cast]. by rewrite Hstr.
Qed.

Lemma valueOrDefault_cast_or_default_witness :
  valueOrDefault (setValue "Items/arrange_gap" (VStr "5") ∅) "Items/arrange_gap"
    = Ok (VInt 5).
Proof.
  destruct (valueOrDefault_cast_or_default
              (setValue "Items/arrange_gap" (VStr "5") ∅) "Items/arrange_gap"
              (mkField (VInt 0) Int) eq_refl) as [Hcast _].
  apply (Hcast (VStr "5")); reflexivity.
Defined.

Variable abspath : string -> string.
Variable path_exists : string -> bool.

Abbreviation update_recent_files := (update_recent_files abspath).
Abbreviation after_updates := (after_updates abspath).
Abbreviation get_recent_files := (get_recent_files path_exists).

Lemma filter_ne_id (x : string) (l : list string) :
  x ∉ l -> filter (fun f => f <> x) l = l.
Proof.
  induction l as [|y l IH]; [done|].
  intros Hx. apply not_elem_of_cons in Hx as [Hne Hx].
  rewrite filter_cons_True by congruence. by rewrite IH.
Qed.

Lemma NoDup_mru_order history : NoDup (mru_order history).
Proof.
  induction history as [|p history IH]; simpl; [constructor|].
  apply NoDup_cons. split; [|by apply NoDup_filter].
  rewrite list_elem_of_filter. intros [Hne _]. by apply Hne.
Qed.

Lemma mru_order_NoDup history : NoDup history -> mru_order history = history.
Proof.
  induction 1 as [|p history Hp _ IH]; simpl; [done|].
  by rewrite IH, filter_ne_id.
Qed.

(** Truncating before or after the removal of one path gives the same
    first entries. *)
Lemma take_filter_take (x : string) (n : nat) (l : list string) :
  NoDup l ->
  take n (filter (fun f => f <> x) (take (S n) l)) =
  take n (filter (fun f => f <> x) l).
Proof.
  intros Hl. revert n. induction Hl as [|y l Hy Hl IH]; intros n; [done|].
  cbn [take]. destruct (decide (y = x)) as [->|Hne].
  - rewrite !filter_cons_False by (intros Hx; by apply Hx).
    rewrite (filter_ne_id x l Hy), filter_ne_id, take_idemp; [done|].
    intros Hin. apply Hy. by apply (subseteq_take n l).
  - rewrite !filter_cons_True by done.
    destruct n as [|n]; [done|]. cbn [take]. by rewrite IH.
Qed.

(** The list after a run of updates is the most-recently-used order of
    the paths given, truncated. *)
Lemma after_updates_mru filenames :
  after_updates filenames = take 10 (mru_order (reverse (abspath <$> filenames))).
Proof.
  unfold Settings.after_updates.
  induction filenames as [|p filenames IH] using rev_ind; [done|].
  rewrite foldl_snoc, IH, fmap_app, reverse_app. cbn [fmap list_fmap reverse app].
  unfold Settings.update_recent_files. change (reverse [abspath p]) with [abspath p].
  cbn [app mru_order take]. f_equal.
  apply (take_filter_take (abspath p) 9), NoDup_mru_order.
Qed.

(** C2: [update_recent_files] removes the path from the list, puts it
    in front and keeps ten entries; so the updates with [0.bee] to
    [14.bee] leave ten entries, from [14.bee] down to [5.bee], and the
    update with a path already in the list moves it to the front and
    does not make the list longer. *)
Theorem update_recent_files_steps :
  NoDup (abspath <$> bee_files 15) ->
  (forall p files,
     update_recent_files p files =
     take 10 (abspath p :: filter (fun f => f <> abspath p) files)) /\
  (length (after_updates (bee_files 15)) = 10%nat /\
   head (after_updates (bee_files 15)) = Some (abspath "14.bee") /\
   last (after_updates (bee_files 15)) = Some (abspath "5.bee")) /\
  (forall p files,
     abspath p ∈ files ->
     head (update_recent_files p files) = Some (abspath p) /\
     (length (update_recent_files p files) <= length files)%nat /\
     ((length files <= 10)%nat ->
      update_recent_files p files =
      abspath p :: filter (fun f => f <> abspath p) files)).
Proof.
  intros Hdistinct. split; [done|]. split.
  - rewrite after_updates_mru, mru_order_NoDup
      by (by rewrite reverse_Permutation).
    change (bee_files 15) with
      ["0.bee"; "1.bee"; "2.bee"; "3.bee"; "4.bee"; "5.bee"; "6.bee"; "7.bee";
       "8.bee"; "9.bee"; "10.bee"; "11.bee"; "12.bee"; "13.bee"; "14.bee"].
    repeat split.
  - intros p files Hin. split; [done|].
    assert (length (filter (fun f => f <> abspath p) files) < length files)%nat
      as Hshorter
      by (apply (length_filter_lt _ _ (abspath p)); [done | by intros Hne]).
    unfold Settings.update_recent_files. cbn [take length]. split.
    + rewrite length_take. lia.
    + intros Hlen. by rewrite take_ge by lia.
Qed.

(** C3: after any run of updates from the empty list, the list has at
    most ten entries, no path twice, and is in most-recently-used order:
    it is the truncated list of the distinct paths by their last use,
    latest first, and the path of the last update is its first entry. *)
Theorem after_updates_invariant (filenames : list string) :
  (length (after_updates filenames) <= 10)%nat /\
  NoDup (after_updates filenames) /\
  after_updates filenames =
    take 10 (mru_order (reverse (abspath <$> filenames))) /\
  (forall p, head (after_updates (filenames ++ [p])) = Some (abspath p)).
Proof.
  split; [|split; [|split]].
  - rewrite after_updates_mru, length_take. lia.
  - rewrite after_updates_mru.
    apply (sublist_NoDup _ (mru_order (reverse (abspath <$> filenames))));
      [apply NoDup_mru_order | apply sublist_take].
  - apply after_updates_mru.
  - intros p. unfold Settings.after_updates. by rewrite foldl_snoc.
Qed.

(** C5: [get_recent_files] with [existing_only] returns the entries
    whose file exists, in their stored order, and nothing else; without
    the flag it returns every stored entry. *)
Theorem get_recent_files_existing_only (files : list string) :
  get_recent_files true files = filter (fun f => path_exists f = true) files /\
  (forall f, f ∈ get_recent_files true files <->
             f ∈ files /\ path_exists f = true) /\
  get_recent_files true files `sublist_of` files /\
  get_recent_files false files = files.
Proof.
  split; [done|]. split; [|split; [apply sublist_filter | done]].
  intros f. unfold Settings.get_recent_files.
  rewrite list_elem_of_filter. tauto.
Qed.

End SettingsLemmas.

Lemma update_recent_files_steps_witness :
  length (Settings.after_updates (fun p => "/home/bee/" +:+ p)
            (Settings.bee_files 15)) = 10%nat /\
  head (Settings.after_updates (fun p => "/home/bee/" +:+ p)
          (Settings.bee_files 15)) = Some "/home/bee/14.bee" /\
  last (Settings.after_updates (fun p => "/home/bee/" +:+ p)
          (Settings.bee_files 15)) = Some "/home/bee/5.bee".
Proof.
  apply (update_recent_files_steps (fun p => "/home/bee/" +:+ p)).
  apply (bool_decide_unpack _). vm_compute. exact I.
Defined.

(** ** Rectangles from two points *)

Section RectLemmas.

Context {R : Type}.
Variable ltb : R -> R -> bool.
Variable sub : R -> R -> R.
Variable zero : R.

(** What [<] is on numbers of any kind: never both ways. *)
Hypothesis ltb_asym : forall a b, ltb a b = true -> ltb b a = false.

(** What the difference is on them, rounded or not: not negative
    unless the first number is the smaller one. *)
Hypothesis sub_nonneg : forall a b, ltb a b = false -> ltb (sub a b) zero = false.

Abbreviation get_rect_from_points := (Rect.get_rect_from_points ltb sub).
Abbreviation comparable := (Rect.comparable ltb).

Lemma ltb_irrefl a : ltb a a = false.
Proof. destruct (ltb a a) eqn:Ha; [by rewrite (ltb_asym a a Ha) in Ha | done]. Qed.

Lemma min_max_bounds a b :
  ltb (Rect.max ltb a b) (Rect.min ltb a b) = false /\
  ltb a (Rect.min ltb a b) = false /\ ltb b (Rect.min ltb a b) = false /\
  ltb (Rect.max ltb a b) a = false /\ ltb (Rect.max ltb a b) b = false.
Proof.
  unfold Rect.min, Rect.max.
  destruct (ltb b a) eqn:Hba, (ltb a b) eqn:Hab;
    rewrite ?ltb_irrefl, ?Hba, ?Hab; repeat split; try done;
    by rewrite (ltb_asym _ _ Hba) in Hab.
Qed.

Lemma comparable_sym a b : comparable a b -> comparable b a.
Proof. intros [?|[?|?]]; [right; by left | by left | right; by right]. Qed.

Lemma min_comm a b :
  comparable a b -> Rect.min ltb a b = Rect.min ltb b a.
Proof.
  unfold Rect.min. intros [Hab|[Hba| ->]]; [| |done].
  - by rewrite Hab, (ltb_asym _ _ Hab).
  - by rewrite Hba, (ltb_asym _ _ Hba).
Qed.

Lemma max_comm a b :
  comparable a b -> Rect.max ltb a b = Rect.max ltb b a.
Proof.
  unfold Rect.max. intros [Hab|[Hba| ->]]; [| |done].
  - by rewrite Hab, (ltb_asym _ _ Hab).
  - by rewrite Hba, (ltb_asym _ _ Hba).
Qed.

(** X1: the rectangle of [get_rect_from_points] is never inverted: its
    width and its height are not negative, and its left and its top
    edge are not beyond either point.  Its right and its bottom edge
    are not kept: they are the sums of an edge and a rounded difference,
    and need not reach the greater coordinate again. *)
Theorem get_rect_from_points_normalized (point1 point2 : Rect.QPointF) :
  let r := get_rect_from_points point1 point2 in
  (ltb (Rect.width r) zero = false /\ ltb (Rect.height r) zero = false) /\
  (ltb (Rect.x point1) (Rect.left r) = false /\
   ltb (Rect.y point1) (Rect.top r) = false) /\
  (ltb (Rect.x point2) (Rect.left r) = false /\
   ltb (Rect.y point2) (Rect.top r) = false).
Proof.
  cbn.
  destruct (min_max_bounds (Rect.x point1) (Rect.x point2)) as (? & ? & ? & ? & ?).
  destruct (min_max_bounds (Rect.y point1) (Rect.y point2)) as (? & ? & ? & ? & ?).
  repeat split; try done; by apply sub_nonneg.
Qed.

(** X2: any two opposing corners give the same rectangle: with
    comparable coordinates, the two points may be swapped, and the other
    diagonal may be given instead. *)
Theorem get_rect_from_points_any_corners (x1 y1 x2 y2 : R) :
  comparable x1 x2 -> comparable y1 y2 ->
  get_rect_from_points (Rect.mkQPointF x2 y2) (Rect.mkQPointF x1 y1)
    = get_rect_from_points (Rect.mkQPointF x1 y1) (Rect.mkQPointF x2 y2) /\
  get_rect_from_points (Rect.mkQPointF x1 y2) (Rect.mkQPointF x2 y1)
    = get_rect_from_points (Rect.mkQPointF x1 y1) (Rect.mkQPointF x2 y2) /\
  get_rect_from_points (Rect.mkQPointF x2 y1) (Rect.mkQPointF x1 y2)
    = get_rect_from_points (Rect.mkQPointF x1 y1) (Rect.mkQPointF x2 y2).
Proof.
  intros Hx Hy. unfold Rect.get_rect_from_points. cbn.
  by rewrite (min_comm x2 x1), (max_comm x2 x1), (min_comm y2 y1), (max_comm y2 y1)
    by (by apply comparable_sym).
Qed.

End RectLemmas.

Lemma get_rect_from_points_normalized_witness :
  let r :=
    Rect.get_rect_from_points Z.ltb Z.sub (Rect.mkQPointF 5 1) (Rect.mkQPointF 2 7) in
  (Z.ltb (Rect.width r) 0 = false /\ Z.ltb (Rect.height r) 0 = false) /\
  (Z.ltb 5 (Rect.left r) = false /\ Z.ltb 1 (Rect.top r) = false) /\
  (Z.ltb 2 (Rect.left r) = false /\ Z.ltb 7 (Rect.top r) = false).
Proof.
  apply (get_rect_from_points_normalized Z.ltb Z.sub 0
           (fun a b H => proj2 (Z.ltb_ge b a)
              (Z.lt_le_incl a b (proj1 (Z.ltb_lt a b) H)))
           (fun a b H => proj2 (Z.ltb_ge (a - b) 0)
              (proj2 (Z.le_0_sub b a) (proj1 (Z.ltb_ge a b) H)))
           (Rect.mkQPointF 5 1) (Rect.mkQPointF 2 7)).
Defined.

Lemma get_rect_from_points_any_corners_witness :
  Rect.get_rect_from_points Z.ltb Z.sub (Rect.mkQPointF 2 7) (Rect.mkQPointF 5 1)
    = Rect.get_rect_from_points Z.ltb Z.sub (Rect.mkQPointF 5 1) (Rect.mkQPointF 2 7).
Proof.
  apply (get_rect_from_points_any_corners Z.ltb Z.sub
           (fun a b H => proj2 (Z.ltb_ge b a)
              (Z.lt_le_incl a b (proj1 (Z.ltb_lt a b) H)))
           5 1 2 7).
  - right. left. reflexivity.
  - left. reflexivity.
Defined.

(** ** [ActionList] *)

Section ActionListLemmas.

Context {Action : Type}.
Variable action_id : Action -> string.

Abbreviation init := (ActionList.init action_id).

Lemma assoc_setitem (k k' : string) (a : Action) d :
  assoc k' (ActionList.setitem k a d) =
  if decide (k' = k) then Some a else assoc k' d.
Proof.
  induction d as [|[k0 v] d IH]; simpl.
  - destruct (String.eqb_spec k' k), (decide (k' = k)); done.
  - destruct (String.eqb_spec k k0) as [->|Hne]; simpl.
    + destruct (String.eqb_spec k' k0), (decide (k' = k0)); done.
    + rewrite IH. destruct (String.eqb_spec k' k0) as [->|]; [|done].
      by rewrite decide_False by done.
Qed.

Lemma keys_setitem (k : string) (a : Action) d :
  map fst (ActionList.setitem k a d) =
  if decide (k ∈ map fst d) then map fst d else map fst d ++ [k].
Proof.
  induction d as [|[k0 v] d IH]; simpl.
  - by destruct (decide (k ∈ [])) as [?%elem_of_nil|].
  - destruct (String.eqb_spec k k0) as [->|Hne]; simpl.
    + by rewrite decide_True by left.
    + rewrite IH. destruct (decide (k ∈ map fst d)) as [Hin|Hin].
      * by rewrite decide_True by (by right).
      * rewrite decide_False; [done|].
        by intros [?|?]%elem_of_cons.
Qed.

Lemma init_snoc actions a :
  init (actions ++ [a]) = ActionList.setitem (action_id a) a (init actions).
Proof. unfold ActionList.init. by rewrite foldl_snoc. Qed.

Lemma elem_of_first_occurrences s l :
  s ∈ ActionList.first_occurrences l <-> s ∈ l.
Proof.
  induction l as [|t l IH]; simpl; [done|].
  rewrite !elem_of_cons, list_elem_of_filter, IH.
  destruct (decide (s = t)); tauto.
Qed.

Lemma first_occurrences_snoc l s :
  ActionList.first_occurrences (l ++ [s]) =
  if decide (s ∈ l) then ActionList.first_occurrences l
  else ActionList.first_occurrences l ++ [s].
Proof.
  induction l as [|t l IH]; simpl.
  - by destruct (decide (s ∈ [])) as [?%elem_of_nil|].
  - rewrite IH. destruct (decide (s ∈ l)) as [Hin|Hin].
    + by rewrite decide_True by (by right).
    + rewrite filter_app. destruct (decide (s = t)) as [->|Hne].
      * rewrite decide_True by left.
        rewrite filter_cons_False by (intros Hs; by apply Hs).
        by rewrite filter_nil, app_nil_r.
      * rewrite decide_False by (by intros [?|?]%elem_of_cons).
        by rewrite filter_cons_True by done.
Qed.

Lemma NoDup_first_occurrences l : NoDup (ActionList.first_occurrences l).
Proof.
  induction l as [|s l IH]; simpl; [constructor|].
  apply NoDup_cons. split; [|by apply NoDup_filter].
  rewrite list_elem_of_filter. intros [Hne _]. by apply Hne.
Qed.

Lemma first_occurrences_NoDup l :
  NoDup l -> ActionList.first_occurrences l = l.
Proof.
  induction 1 as [|s l Hs _ IH]; simpl; [done|].
  rewrite IH. f_equal. clear IH.
  induction l as [|t l IH]; [done|].
  apply not_elem_of_cons in Hs as [Hne Hs].
  rewrite filter_cons_True by congruence. by rewrite IH.
Qed.

Lemma keys_init actions :
  map fst (init actions) = ActionList.first_occurrences (action_id <$> actions).
Proof.
  induction actions as [|a actions IH] using rev_ind; [done|].
  rewrite init_snoc, keys_setitem, fmap_app.
  change (action_id <$> [a]) with [action_id a].
  rewrite first_occurrences_snoc, IH.
  destruct (decide (action_id a ∈ ActionList.first_occurrences (action_id <$> actions)))
    as [Hin|Hin].
  - by rewrite decide_True by (by apply elem_of_first_occurrences).
  - rewrite decide_False; [done|]. by rewrite <- elem_of_first_occurrences.
Qed.

Lemma assoc_init actions s :
  assoc s (init actions) = last (filter (fun a => action_id a = s) actions).
Proof.
  induction actions as [|a actions IH] using rev_ind; [done|].
  rewrite init_snoc, assoc_setitem, filter_app, IH.
  destruct (decide (s = action_id a)) as [->|Hne].
  - rewrite filter_cons_True, filter_nil by done. by rewrite last_snoc.
  - rewrite filter_cons_False, filter_nil by congruence. by rewrite app_nil_r.
Qed.

Lemma assoc_keys s (d : list (string * Action)) :
  s ∈ map fst d -> is_Some (assoc s d).
Proof.
  induction d as [|[k v] d IH]; simpl; [by intros ?%elem_of_nil|].
  intros Hin. destruct (String.eqb_spec s k) as [->|Hne]; [done|].
  apply IH. by apply elem_of_cons in Hin as [?|?].
Qed.

(** X3: the keys of an [ActionList] are the ids of the actions in the
    order of their first occurrence, each of them once. *)
Theorem ActionList_keys (actions : list Action) :
  map fst (init actions) = ActionList.first_occurrences (action_id <$> actions) /\
  NoDup (map fst (init actions)) /\
  (forall s, s ∈ map fst (init actions) <-> s ∈ action_id <$> actions).
Proof.
  rewrite keys_init. split; [done|]. split; [apply NoDup_first_occurrences|].
  intros s. apply elem_of_first_occurrences.
Qed.

(** X4: subscription by id returns the last of the actions given with
    this id, and raises [KeyError] when no action has it. *)
Theorem ActionList_getitem_id (actions : list Action) (s : string) :
  ActionList.getitem (init actions) (ActionList.Id s) =
  match last (filter (fun a => action_id a = s) actions) with
  | Some a => Ok a
  | None => Raise KeyError
  end.
Proof. unfold ActionList.getitem. cbn. by rewrite assoc_init. Qed.

Lemma list_getitem_lookup {A : Type} (l : list A) (i : nat) (a : A) :
  l !! i = Some a ->
  ActionList.list_getitem l (Z.of_nat i) = Ok a /\
  ActionList.list_getitem l (Z.of_nat i - Z.of_nat (length l)) = Ok a.
Proof.
  intros Hi. pose proof (lookup_lt_Some _ _ _ Hi) as Hlt.
  unfold ActionList.list_getitem. split.
  - destruct (Z.ltb_spec (Z.of_nat i) 0); [lia|].
    destruct (Z.leb_spec 0 (Z.of_nat i)); [|lia].
    destruct (Z.ltb_spec (Z.of_nat i) (Z.of_nat (length l))); [|lia].
    by rewrite Nat2Z.id, Hi.
  - destruct (Z.ltb_spec (Z.of_nat i - Z.of_nat (length l)) 0); [|lia].
    replace (Z.of_nat i - Z.of_nat (length l) + Z.of_nat (length l))
      with (Z.of_nat i) by lia.
    destruct (Z.leb_spec 0 (Z.of_nat i)); [|lia].
    destruct (Z.ltb_spec (Z.of_nat i) (Z.of_nat (length l))); [|lia].
    by rewrite Nat2Z.id, Hi.
Qed.

(** X5: when the actions have distinct ids, subscription by an [int]
    is subscription of the list of actions itself: index [i] gives the
    action at [i], and so does [i - len(actions)], counting from the
    end. *)
Theorem ActionList_getitem_index (actions : list Action) (i : nat) (a : Action) :
  NoDup (action_id <$> actions) ->
  actions !! i = Some a ->
  ActionList.getitem (init actions) (ActionList.Index (Z.of_nat i)) = Ok a /\
  ActionList.getitem (init actions)
    (ActionList.Index (Z.of_nat i - Z.of_nat (length actions))) = Ok a.
Proof.
  intros Hdistinct Hi.
  assert (map fst (init actions) = action_id <$> actions) as Hkeys
    by (by rewrite keys_init, first_occurrences_NoDup).
  assert (assoc (action_id a) (init actions) = Some a) as Hassoc.
  { rewrite assoc_init.
    apply list_elem_of_split_length in Hi as (l1 & l2 & -> & _).
    rewrite filter_app, filter_cons_True, last_app by done.
    rewrite fmap_app, fmap_cons in Hdistinct.
    apply NoDup_app in Hdistinct as (_ & _ & Hl2).
    apply NoDup_cons in Hl2 as [Hnotin _].
    assert (filter (fun b => action_id b = action_id a) l2 = []) as ->; [|done].
    clear -Hnotin. induction l2 as [|b l2 IH]; [done|].
    rewrite fmap_cons in Hnotin. apply not_elem_of_cons in Hnotin as [Hne Hnotin].
    rewrite filter_cons_False by congruence. by apply IH. }
  assert ((action_id <$> actions) !! i = Some (action_id a)) as Hid
    by (by rewrite list_lookup_fmap, Hi).
  destruct (list_getitem_lookup _ _ _ Hid) as [Hpos Hneg].
  rewrite length_fmap in Hneg.
  unfold ActionList.getitem. rewrite Hkeys, Hpos, Hneg. cbn.
  by rewrite Hassoc.
Qed.

(** X6: subscription by an [int] raises [IndexError] exactly when the
    index is outside of [-n .. n - 1], [n] the number of distinct ids;
    inside it returns an action and never raises [KeyError]. *)
Theorem ActionList_getitem_index_range (actions : list Action) (i : Z) :
  let n := Z.of_nat (length (ActionList.first_occurrences (action_id <$> actions))) in
  (- n <= i < n ->
   exists a, ActionList.getitem (init actions) (ActionList.Index i) = Ok a /\
             a ∈ actions) /\
  (i < - n \/ n <= i ->
   ActionList.getitem (init actions) (ActionList.Index i) = Raise IndexError).
Proof.
  cbv zeta. rewrite <- keys_init.
  unfold ActionList.getitem, ActionList.list_getitem.
  set (keys := map fst (init actions)).
  set (j := if i <? 0 then i + Z.of_nat (length keys) else i).
  split.
  - intros Hi.
    assert (0 <= j < Z.of_nat (length keys)) as Hj
      by (unfold j; destruct (Z.ltb_spec i 0); lia).
    destruct (Z.leb_spec 0 j); [|lia].
    destruct (Z.ltb_spec j (Z.of_nat (length keys))); [|lia]. cbn.
    destruct (lookup_lt_is_Some_2 keys (Z.to_nat j) ltac:(lia)) as [k Hk].
    rewrite Hk. cbn.
    destruct (assoc_keys k (init actions)) as [a Ha];
      [by apply list_elem_of_lookup_2 in Hk|].
    rewrite Ha. exists a. split; [done|].
    rewrite assoc_init in Ha. apply last_Some in Ha as [l Hl].
    assert (a ∈ filter (fun b => action_id b = k) actions) as Hin
      by (rewrite Hl; apply elem_of_app; right; by left).
    by apply list_elem_of_filter in Hin as [_ Hin].
  - intros Hi.
    assert (j < 0 \/ Z.of_nat (length keys) <= j) as Hj
      by (unfold j; destruct (Z.ltb_spec i 0); lia).
    destruct (Z.leb_spec 0 j), (Z.ltb_spec j (Z.of_nat (length keys)));
      try lia; done.
Qed.

End ActionListLemmas.

Lemma ActionList_getitem_index_witness :
  ActionList.getitem (ActionList.init (fun a => a) ["open"; "save"; "quit"])
    (ActionList.Index 1) = Ok "save" /\
  ActionList.getitem (ActionList.init (fun a => a) ["open"; "save"; "quit"])
    (ActionList.Index (-2)) = Ok "save".
Proof.
  apply (ActionList_getitem_index (fun a => a) ["open"; "save"; "quit"] 1 "save").
  - apply (bool_decide_unpack _). vm_compute. exact I.
  - reflexivity.
Defined.

(** ** More on [get_file_extension_from_format] *)

Section FormatErrors.

Local Arguments String.append : simpl nomatch.

Lemma match_group_line r rest :
  no_newline r = true ->
  match_group (r +:+ String "010" rest) = match_group r.
Proof.
  unfold no_newline. induction r as [|c r IH]; simpl; [done|].
  intros [Hc Hr]%andb_true_iff. apply negb_true_iff in Hc.
  by rewrite Hc, IH.
Qed.

Lemma match_paren_line c l rest :
  no_newline l = true ->
  match_paren (String c (l +:+ String "010" rest)) = match_paren (String c l).
Proof.
  intros Hl.
  destruct c as [[] [] [] [] [] [] [] []]; try (by destruct l).
  destruct l as [|c2 l]; [done|].
  destruct c2 as [[] [] [] [] [] [] [] []]; try done.
  apply match_group_line. exact Hl.
Qed.

Lemma re_match_format_line l rest :
  no_newline l = true ->
  re_match_format (l +:+ String "010" rest) = re_match_format l.
Proof.
  induction l as [|c l IH]; [done|].
  intros Hl. pose proof Hl as Hcl. unfold no_newline in Hl. simpl in Hl.
  apply andb_true_iff in Hl as [Hc Hl].
  change (String c l +:+ String "010" rest)
    with (String c (l +:+ String "010" rest)).
  rewrite !re_match_format_String, IH, match_paren_line by done. done.
Qed.

Lemma has_open_String c c2 s :
  has_open (String c (String c2 s)) =
  if Ascii.eqb c " " && Ascii.eqb c2 "(" then true else has_open (String c2 s).
Proof.
  destruct c as [[] [] [] [] [] [] [] []]; try reflexivity.
  destruct c2 as [[] [] [] [] [] [] [] []]; reflexivity.
Qed.

Lemma isspace_not_paren c : Py.isspace c = true -> Ascii.eqb c "(" = false.
Proof. by destruct c as [[] [] [] [] [] [] [] []]. Qed.

Lemma has_open_blank inner :
  string_forallb Py.isspace inner = true -> has_open (inner +:+ ")") = false.
Proof.
  induction inner as [|c inner IH]; [done|].
  simpl. intros [Hc Hinner]%andb_true_iff.
  specialize (IH Hinner). destruct inner as [|c2 inner].
  - change (has_open (String c ")") = false).
    rewrite has_open_String. by rewrite andb_false_r.
  - change (has_open (String c (String c2 (inner +:+ ")"))) = false).
    rewrite has_open_String. simpl in Hinner.
    apply andb_true_iff in Hinner as [Hc2 _].
    by rewrite (isspace_not_paren c2 Hc2), andb_false_r.
Qed.

Lemma split_blank inner :
  string_forallb Py.isspace inner = true -> Py.split inner = [].
Proof.
  induction inner as [|c inner IH]; [done|].
  simpl. intros [-> Hinner]%andb_true_iff. by apply IH.
Qed.

End FormatErrors.

(** X7: a format without a space directly followed by an opening
    parenthesis makes [get_file_extension_from_format] raise
    [AttributeError]: [re.match] finds nothing and returns [None]. *)
Theorem get_file_extension_from_format_no_parenthesis (formatstr : string) :
  has_open formatstr = false ->
  get_file_extension_from_format formatstr = Raise AttributeError.
Proof.
  intros Hopen. unfold get_file_extension_from_format.
  by rewrite re_match_format_no_open.
Qed.

Lemma get_file_extension_from_format_no_parenthesis_witness :
  get_file_extension_from_format "JPEG(*.jpg)" = Raise AttributeError.
Proof.
  apply (get_file_extension_from_format_no_parenthesis "JPEG(*.jpg)").
  reflexivity.
Defined.

(** X8: only the first line of the format counts: what follows the
    first line feed changes neither the result nor the exception. *)
Theorem get_file_extension_from_format_first_line (line rest : string) :
  no_newline line = true ->
  get_file_extension_from_format (line +:+ String "010" rest)
    = get_file_extension_from_format line.
Proof.
  intros Hline. unfold get_file_extension_from_format.
  by rewrite re_match_format_line.
Qed.

Lemma get_file_extension_from_format_first_line_witness :
  get_file_extension_from_format
    ("PNG (*.png)" +:+ String "010" "JPEG (*.jpg *.jpeg)")
    = get_file_extension_from_format "PNG (*.png)".
Proof.
  apply (get_file_extension_from_format_first_line "PNG (*.png)"
           "JPEG (*.jpg *.jpeg)").
  reflexivity.
Defined.

(** X9: parentheses that hold nothing but white space make
    [get_file_extension_from_format] raise [IndexError]: the pattern
    matches, and the group has no field to take. *)
Theorem get_file_extension_from_format_blank (name inner : string) :
  no_newline (name +:+ inner) = true ->
  string_forallb Py.isspace inner = true ->
  get_file_extension_from_format (name +:+ " (" +:+ inner +:+ ")")
    = Raise IndexError.
Proof.
  intros Hline Hblank. rewrite no_newline_app in Hline.
  apply andb_true_iff in Hline as [Hname Hinner].
  unfold get_file_extension_from_format.
  rewrite re_match_format_last by (by try apply has_open_blank).
  by rewrite split_blank.
Qed.

Lemma get_file_extension_from_format_blank_witness :
  get_file_extension_from_format "All files (  )" = Raise IndexError.
Proof.
  apply (get_file_extension_from_format_blank "All files" "  "); reflexivity.
Defined.

(** ** More on [round_to] *)

(** X10: a multiple of the base below [2 ^ 52] in absolute value is
    left as it is. *)
Theorem round_to_multiple (base k : Z) :
  base <> 0 -> Z.abs (base * k) < 2 ^ 52 ->
  round_to (base * k) base = Ok (base * k).
Proof.
  intros Hbase Hsmall.
  destruct (int_true_divide_round (base * k) base Hbase Hsmall) as (q & Hq & Hround).
  unfold round_to. rewrite Hq. cbn. rewrite Hround.
  replace (base * k * Z.sgn base) with (k * Z.abs base)
    by (rewrite <- (Z.sgn_abs base) at 1; lia).
  by rewrite round_half_even_exact by lia.
Qed.

Lemma round_to_multiple_witness : round_to (15 * -3) 15 = Ok (15 * -3).
Proof. apply (round_to_multiple 15 (-3)); [discriminate | reflexivity]. Defined.

(** X11: below [2 ^ 52] in absolute value, [round_to] moves a number by
    at most half of the base. *)
Theorem round_to_within_half_base (number base : Z) :
  base <> 0 -> Z.abs number < 2 ^ 52 ->
  exists r, round_to number base = Ok r /\ 2 * Z.abs (r - number) <= Z.abs base.
Proof.
  intros Hbase Hsmall.
  destruct (int_true_divide_round number base Hbase Hsmall) as (q & Hq & Hround).
  unfold round_to. rewrite Hq. cbn. eexists. split; [done|]. rewrite Hround.
  pose proof (round_half_even_bounds (number * Z.sgn base) (Z.abs base)
                ltac:(lia)) as Hb.
  set (k := round_half_even (number * Z.sgn base) (Z.abs base)) in *.
  destruct (Z.lt_trichotomy base 0) as [Hneg|[->|Hpos]]; [|done|].
  - rewrite (Z.sgn_neg base), (Z.abs_neq base) in Hb by lia.
    rewrite (Z.abs_neq base) by lia. lia.
  - rewrite (Z.sgn_pos base), (Z.abs_eq base) in Hb by lia.
    rewrite (Z.abs_eq base) by lia. lia.
Qed.

Lemma round_to_within_half_base_witness :
  exists r, round_to 37 15 = Ok r /\ 2 * Z.abs (r - 37) <= Z.abs 15.
Proof.
  apply (round_to_within_half_base 37 15); [discriminate | reflexivity].
Defined.

Lemma round_to_round_half_even number base :
  base <> 0 -> Z.abs number < 2 ^ 52 ->
  round_to number base
    = Ok (base * round_half_even (number * Z.sgn base) (Z.abs base)).
Proof.
  intros Hbase Hsmall.
  destruct (int_true_divide_round number base Hbase Hsmall) as (q & Hq & Hround).
  unfold round_to. rewrite Hq. cbn. by rewrite Hround.
Qed.

(** X12: below [2 ^ 52], [round_to] is symmetric: the opposite number
    gives the opposite result, and the sign of the base does not
    matter. *)
Theorem round_to_signs (number base : Z) :
  base <> 0 -> Z.abs number < 2 ^ 52 ->
  exists r,
    round_to number base = Ok r /\
    round_to (- number) base = Ok (- r) /\
    round_to number (- base) = Ok r.
Proof.
  intros Hbase Hsmall. eexists. split; [by apply round_to_round_half_even|].
  rewrite !round_to_round_half_even by lia.
  rewrite Z.sgn_opp, Z.abs_opp.
  replace (- number * Z.sgn base) with (- (number * Z.sgn base)) by ring.
  replace (number * - Z.sgn base) with (- (number * Z.sgn base)) by ring.
  rewrite round_half_even_opp by lia.
  split; f_equal; ring.
Qed.

Lemma round_to_signs_witness :
  exists r,
    round_to 37 15 = Ok r /\ round_to (- 37) 15 = Ok (- r) /\
    round_to 37 (- 15) = Ok r.
Proof. apply (round_to_signs 37 15); [discriminate | reflexivity]. Defined.

(** X13: rounding twice is rounding once: [round_to] leaves its own
    result as it is, for a number and a base that together stay below
    [2 ^ 52]. *)
Theorem round_to_idempotent (number base : Z) :
  base <> 0 -> Z.abs number + Z.abs base < 2 ^ 52 ->
  exists r, round_to number base = Ok r /\ round_to r base = Ok r.
Proof.
  intros Hbase Hsmall. eexists. split; [apply round_to_round_half_even; lia|].
  pose proof (round_half_even_bounds (number * Z.sgn base) (Z.abs base)
                ltac:(lia)) as Hb.
  set (k := round_half_even (number * Z.sgn base) (Z.abs base)) in *.
  assert (Z.abs (base * k) < 2 ^ 52) as Hr.
  { destruct (Z.lt_trichotomy base 0) as [Hneg|[->|Hpos]]; [|done|].
    - rewrite (Z.sgn_neg base), (Z.abs_neq base) in Hb by lia.
      rewrite (Z.abs_neq base) in Hsmall by lia. lia.
    - rewrite (Z.sgn_pos base), (Z.abs_eq base) in Hb by lia.
      rewrite (Z.abs_eq base) in Hsmall by lia. lia. }
  rewrite round_to_round_half_even by done. do 2 f_equal.
  replace (base * k * Z.sgn base) with (k * Z.abs base)
    by (rewrite <- (Z.sgn_abs base) at 1; lia).
  apply round_half_even_exact. lia.
Qed.

Lemma round_to_idempotent_witness :
  exists r, round_to 37 15 = Ok r /\ round_to r 15 = Ok r.
Proof. apply (round_to_idempotent 37 15); [discriminate | reflexivity]. Defined.

(** ** More on [qcolor_to_hex] *)

Section ColourInjective.

Local Arguments String.append : simpl nomatch.

Lemma hex_digit_inj a b :
  0 <= a < 16 -> 0 <= b < 16 -> Py.hex_digit a = Py.hex_digit b -> a = b.
Proof.
  intros Ha Hb Heq. apply (f_equal nat_of_ascii) in Heq.
  unfold Py.hex_digit in Heq.
  destruct (Z.ltb_spec a 10), (Z.ltb_spec b 10);
    rewrite !nat_ascii_embedding in Heq by lia; lia.
Qed.

Lemma hex2_inj a b :
  0 <= a < 256 -> 0 <= b < 256 -> hex2 a = hex2 b -> a = b.
Proof.
  intros Ha Hb Heq. unfold hex2 in Heq. injection Heq as Hhi Hlo.
  apply hex_digit_inj in Hhi;
    [| split; [apply Z.div_pos | apply Z.div_lt_upper_bound]; lia
     | split; [apply Z.div_pos | apply Z.div_lt_upper_bound]; lia].
  apply hex_digit_inj in Hlo; [| apply Z.mod_pos_bound; lia..].
  rewrite (Z.div_mod a 16), (Z.div_mod b 16) by lia. lia.
Qed.

Lemma channel_ok_bounds v : channel_ok v = true -> 0 <= v < 256.
Proof. unfold channel_ok. intros [? ?]%andb_true_iff. lia. Qed.

(** The text after the [#rrggbb] name: nothing, one digit or two. *)
Lemma qcolor_to_hex_suffix c :
  0 <= alpha c < 256 ->
  exists suffix,
    qcolor_to_hex c = QColor_name c +:+ suffix /\
    (alpha c = 255 /\ suffix = EmptyString \/
     alpha c < 16 /\ suffix = String (Py.hex_digit (alpha c)) EmptyString \/
     16 <= alpha c < 255 /\ suffix = hex2 (alpha c)).
Proof.
  intros Ha. unfold qcolor_to_hex.
  destruct (Z.eqb_spec (alpha c) 255) as [Heq|Hne].
  - exists EmptyString. split; [by rewrite app_empty_r | by left].
  - destruct (Z.lt_ge_cases (alpha c) 16).
    + eexists. split; [by rewrite hex_small by lia | right; by left].
    + eexists. split; [by rewrite hex_two by lia | right; right; split; [lia|done]].
Qed.

End ColourInjective.

(** X14: [qcolor_to_hex] tells colours apart: two colours with channels
    in 0..255 and the same text have the same red, green, blue and
    alpha. *)
Theorem qcolor_to_hex_inj (c1 c2 : QColor) :
  QColor_ok c1 = true -> QColor_ok c2 = true ->
  qcolor_to_hex c1 = qcolor_to_hex c2 ->
  red c1 = red c2 /\ green c1 = green c2 /\ blue c1 = blue c2 /\
  alpha c1 = alpha c2.
Proof.
  unfold QColor_ok. intros Hok1 Hok2 Heq.
  repeat (let H := fresh "Hok" in apply andb_true_iff in Hok1 as [Hok1 H];
          apply channel_ok_bounds in H).
  repeat (let H := fresh "Hok" in apply andb_true_iff in Hok2 as [Hok2 H];
          apply channel_ok_bounds in H).
  apply channel_ok_bounds in Hok1, Hok2.
  destruct (qcolor_to_hex_suffix c1) as (s1 & Hs1 & Hcase1); [done|].
  destruct (qcolor_to_hex_suffix c2) as (s2 & Hs2 & Hcase2); [done|].
  rewrite Hs1, Hs2 in Heq. unfold QColor_name, hex2 in Heq.
  change (String "#" (String (Py.hex_digit (red c1 / 16))
            (String (Py.hex_digit (red c1 mod 16))
            (String (Py.hex_digit (green c1 / 16))
            (String (Py.hex_digit (green c1 mod 16))
            (String (Py.hex_digit (blue c1 / 16))
            (String (Py.hex_digit (blue c1 mod 16)) s1))))))
          = String "#" (String (Py.hex_digit (red c2 / 16))
            (String (Py.hex_digit (red c2 mod 16))
            (String (Py.hex_digit (green c2 / 16))
            (String (Py.hex_digit (green c2 mod 16))
            (String (Py.hex_digit (blue c2 / 16))
            (String (Py.hex_digit (blue c2 mod 16)) s2))))))) in Heq.
  injection Heq as Hr1 Hr0 Hg1 Hg0 Hb1 Hb0 Hs.
  assert (forall a b, 0 <= a < 256 -> 0 <= b < 256 ->
            Py.hex_digit (a / 16) = Py.hex_digit (b / 16) ->
            Py.hex_digit (a mod 16) = Py.hex_digit (b mod 16) -> a = b) as Hinj.
  { intros a b Ha Hb Hhi Hlo. apply hex2_inj; [done..|].
    unfold hex2. by rewrite Hhi, Hlo. }
  split; [by apply Hinj|]. split; [by apply Hinj|]. split; [by apply Hinj|].
  destruct Hcase1 as [[Ha1 ->]|[[Ha1 ->]|[Ha1 ->]]],
           Hcase2 as [[Ha2 ->]|[[Ha2 ->]|[Ha2 ->]]];
    try discriminate Hs; try lia.
  - injection Hs as Hd. apply hex_digit_inj in Hd; lia.
  - by apply hex2_inj.
Qed.

Lemma qcolor_to_hex_inj_witness :
  red (mkQColor true 1 2 3 4) = red (mkQColor false 1 2 3 4) /\
  green (mkQColor true 1 2 3 4) = green (mkQColor false 1 2 3 4) /\
  blue (mkQColor true 1 2 3 4) = blue (mkQColor false 1 2 3 4) /\
  alpha (mkQColor true 1 2 3 4) = alpha (mkQColor false 1 2 3 4).
Proof.
  apply (qcolor_to_hex_inj (mkQColor true 1 2 3 4) (mkQColor false 1 2 3 4));
    reflexivity.
Defined.

(** ** More on [create_palette_from_dict] *)

Section PaletteFrame.

Context {ColorRole : Type} `{EqDecision ColorRole}.
Variable ColorRole_getattr : string -> option (attr ColorRole).
Variable class_attrs : string -> bool.

Abbreviation set_entry := (set_entry ColorRole_getattr class_attrs).
Abbreviation set_entries := (set_entries ColorRole_getattr class_attrs).
Abbreviation create_palette_from_dict :=
  (create_palette_from_dict ColorRole_getattr class_attrs).
Abbreviation names_role := (names_role ColorRole_getattr).

Lemma set_entry_other_role (r : ColorRole) palette palette' key value g :
  names_role r key = false ->
  set_entry palette key value = Ok palette' ->
  palette' g r = palette g r.
Proof.
  unfold names_role, set_entry. intros Hrole Hset.
  destruct (Py.split_on ":" key) as [|group [|role [|? ?]]]; try done.
  apply bool_decide_eq_false in Hrole.
  destruct (ColorGroup_getattr class_attrs group) as [[cg|]|];
    [| by destruct (ColorRole_getattr role) | by injection Hset as <-].
  destruct (ColorRole_getattr role) as [[cr|]|]; try done.
  assert (r <> cr) as Hne by congruence.
  cbv zeta in Hset.
  destruct (String.eqb group "Active"); injection Hset as <-;
    by rewrite ?setBrush_other_role, setColor_other_role by done.
Qed.

(** X15: [create_palette_from_dict] sets colours only for the roles the
    dictionary names: a role that no key of the form [Group:Role] names
    keeps, in every group, the colour of the fresh palette. *)
Theorem create_palette_from_dict_other_roles
    (conf : list (string * (Z * Z * Z))) (palette : QPalette) (r : ColorRole) :
  Forall (fun kv => names_role r kv.1 = false) conf ->
  create_palette_from_dict conf = Ok palette ->
  forall g, palette g r = None.
Proof.
  intros Hconf Hrun g.
  change (set_entries QPalette_new conf = Ok palette) in Hrun.
  change None with (@QPalette_new ColorRole g r).
  revert Hrun. generalize (@QPalette_new ColorRole). intros p0. revert p0.
  induction Hconf as [|[key value] conf Hkey _ IH]; intros p0; simpl.
  - by intros [= <-].
  - destruct (set_entry p0 key value) as [p1|] eqn:Hset; simpl; [|done].
    intros Hrun. rewrite (IH p1 Hrun).
    by apply (set_entry_other_role r p0 p1 key value g).
Qed.

(** X16: an item with a known group and a role name that is no
    attribute of [ColorRole] makes [create_palette_from_dict] raise
    [AttributeError], whatever follows it, once the items before it are
    through. *)
Theorem create_palette_from_dict_unknown_role
    (conf1 conf2 : list (string * (Z * Z * Z))) (group role : string)
    (value : Z * Z * Z) (palette : QPalette) :
  create_palette_from_dict conf1 = Ok palette ->
  Py.split_on ":" (group +:+ ":" +:+ role) = [group; role] ->
  is_Some (ColorGroup_getattr class_attrs group) ->
  ColorRole_getattr role = None ->
  create_palette_from_dict (conf1 ++ (group +:+ ":" +:+ role, value) :: conf2)
    = Raise AttributeError.
Proof.
  intros Hrun Hsplit [ga Hgroup] Hrole.
  change (set_entries QPalette_new conf1 = Ok palette) in Hrun.
  change (set_entries QPalette_new
            (conf1 ++ (group +:+ ":" +:+ role, value) :: conf2)
          = Raise AttributeError).
  rewrite set_entries_app, Hrun. cbn.
  unfold set_entry. by rewrite Hsplit, Hgroup, Hrole.
Qed.

(** X17: a key that does not split at its colons into exactly two
    parts makes [create_palette_from_dict] raise [ValueError], whatever
    follows it, once the items before it are through. *)
Theorem create_palette_from_dict_bad_key
    (conf1 conf2 : list (string * (Z * Z * Z))) (key : string)
    (value : Z * Z * Z) (palette : QPalette) :
  create_palette_from_dict conf1 = Ok palette ->
  length (Py.split_on ":" key) <> 2%nat ->
  create_palette_from_dict (conf1 ++ (key, value) :: conf2) = Raise ValueError.
Proof.
  intros Hrun Hsplit.
  change (set_entries QPalette_new conf1 = Ok palette) in Hrun.
  change (set_entries QPalette_new (conf1 ++ (key, value) :: conf2)
          = Raise ValueError).
  rewrite set_entries_app, Hrun. cbn.
  unfold set_entry.
  by destruct (Py.split_on ":" key) as [|group [|role [|? ?]]].
Qed.

End PaletteFrame.

Lemma create_palette_from_dict_other_roles_witness :
  exists palette,
    create_palette_from_dict some_roles no_attrs
      [("Active:Window", (1, 2, 3)); ("Bogus:Text", (4, 5, 6))] = Ok palette /\
    palette Active "Base" = None /\ palette Disabled "Base" = None.
Proof.
  eexists. split; [reflexivity|].
  split;
    apply (create_palette_from_dict_other_roles some_roles no_attrs
             [("Active:Window", (1, 2, 3)); ("Bogus:Text", (4, 5, 6))]);
    first [reflexivity | repeat constructor].
Defined.

Lemma create_palette_from_dict_unknown_role_witness :
  create_palette_from_dict some_roles no_attrs
    ([("Active:Window", (1, 2, 3))] ++
     ("Disabled" +:+ ":" +:+ "Shade", (4, 5, 6)) :: [("Active:Text", (7, 8, 9))])
    = Raise AttributeError.
Proof.
  eapply (create_palette_from_dict_unknown_role some_roles no_attrs
            [("Active:Window", (1, 2, 3))] [("Active:Text", (7, 8, 9))]
            "Disabled" "Shade" (4, 5, 6)).
  - reflexivity.
  - reflexivity.
  - eexists. reflexivity.
  - reflexivity.
Defined.

Lemma create_palette_from_dict_bad_key_witness :
  create_palette_from_dict some_roles no_attrs
    ([("Active:Window", (1, 2, 3))] ++
     ("Active:Text:Shade", (4, 5, 6)) :: [("Active:Text", (7, 8, 9))])
    = Raise ValueError.
Proof.
  eapply (create_palette_from_dict_bad_key some_roles no_attrs
            [("Active:Window", (1, 2, 3))] [("Active:Text", (7, 8, 9))]
            "Active:Text:Shade" (4, 5, 6)).
  - reflexivity.
  - vm_compute. discriminate.
Defined.

(** ** The size hint of the recent files *)

Section SizeHintLemmas.

Variable sizeHintForRow : Z -> Z.
Variable sizeHintForColumn : Z -> Z.

Abbreviation sizeHint :=
  (RecentFilesView.sizeHint sizeHintForRow sizeHintForColumn).

Lemma foldl_max_spec (a : Z) (l : list Z) :
  let m := foldl (fun m b => if m <? b then b else m) a l in
  (m = a \/ m ∈ l) /\ a <= m /\ forall x, x ∈ l -> x <= m.
Proof.
  revert a. induction l as [|b l IH]; intros a; cbn.
  - split; [by left|]. split; [lia|]. by intros x ?%elem_of_nil.
  - destruct (IH (if a <? b then b else a)) as (Hin & Hle & Hall).
    destruct (Z.ltb_spec a b).
    + split; [right; destruct Hin as [->|?]; [left | by right]|].
      split; [lia|]. intros x [->|?]%elem_of_cons; [done | by apply Hall].
    + split; [destruct Hin as [->|?]; [by left | right; by right]|].
      split; [lia|]. intros x [->|?]%elem_of_cons; [lia | by apply Hall].
Qed.

Lemma max_spec (l : list Z) :
  l <> [] ->
  exists m, RecentFilesView.max l = Ok m /\ m ∈ l /\ forall x, x ∈ l -> x <= m.
Proof.
  destruct l as [|a l]; [done|]. intros _. eexists. split; [done|].
  destruct (foldl_max_spec a l) as (Hin & Hle & Hall).
  split; [destruct Hin as [->|?]; [left | by right]|].
  intros x [->|?]%elem_of_cons; [done | by apply Hall].
Qed.

Lemma foldl_add (a : Z) (l : list Z) :
  foldl Z.add a l = a + RecentFilesView.sum l.
Proof.
  unfold RecentFilesView.sum. revert a.
  induction l as [|b l IH]; intros a; [cbn; lia|].
  cbn [foldl]. rewrite (IH (a + b)), (IH (0 + b)). lia.
Qed.

Lemma sum_margin (f : Z -> Z) (l : list Z) :
  RecentFilesView.sum ((fun i => f i + 2) <$> l)
    = RecentFilesView.sum (f <$> l) + 2 * Z.of_nat (length l).
Proof.
  induction l as [|i l IH]; [done|].
  unfold RecentFilesView.sum in *. cbn.
  rewrite (foldl_add (f i + 2)), (foldl_add (f i)).
  unfold RecentFilesView.sum. rewrite IH. lia.
Qed.

Lemma c_int_Ok v w : c_int v = Ok w -> w = v.
Proof. unfold c_int. by destruct (_ && _); intros [= <-]. Qed.

Lemma c_int_not_ValueError v : c_int v <> Raise ValueError.
Proof. unfold c_int. by destruct (_ && _). Qed.

Lemma length_range n : length (RecentFilesView.range n) = n.
Proof. unfold RecentFilesView.range. by rewrite length_fmap, length_seq. Qed.

(** X18: [sizeHint] raises [ValueError] exactly when the view has no
    files: [max] has nothing to choose from. *)
Theorem sizeHint_ValueError (files : list string) :
  sizeHint files = Raise ValueError <-> files = [].
Proof.
  split; [|by intros ->].
  destruct files as [|f files]; [done|]. intros Hraise. exfalso.
  unfold RecentFilesView.sizeHint in Hraise.
  destruct (max_spec (sizeHintForColumn <$> RecentFilesView.range (length (f :: files))))
    as (m & Hm & _); [done|].
  rewrite Hm in Hraise.
  cbn -[RecentFilesView.sum RecentFilesView.range] in Hraise.
  match type of Hraise with
  | context [c_int ?h ≫= _] =>
      destruct (c_int h) as [?|e] eqn:Hh;
        [|cbn in Hraise; injection Hraise as ->;
          by apply (c_int_not_ValueError h)]
  end.
  cbn in Hraise.
  destruct (c_int (m + 2)) as [?|e] eqn:Hw; [done|].
  cbn in Hraise. injection Hraise as ->. by apply (c_int_not_ValueError (m + 2)).
Qed.

(** X19: the size that [sizeHint] returns: the height is the sum of the
    row hints and of a margin of 2 for each file; the width is the
    greatest of the column hints and 2, so that no column hint
    exceeds it. *)
Theorem sizeHint_size (files : list string) (size : QSize.t) :
  sizeHint files = Ok size ->
  let rows := RecentFilesView.range (length files) in
  QSize.height size
    = RecentFilesView.sum (sizeHintForRow <$> rows) + 2 * Z.of_nat (length files) /\
  (forall i, i ∈ rows -> sizeHintForColumn i + 2 <= QSize.width size) /\
  (exists i, i ∈ rows /\ QSize.width size = sizeHintForColumn i + 2).
Proof.
  intros Hsize rows. unfold RecentFilesView.sizeHint in Hsize. fold rows in Hsize.
  destruct (decide (sizeHintForColumn <$> rows = [])) as [Hnil|Hcons];
    [by rewrite Hnil in Hsize|].
  destruct (max_spec _ Hcons) as (m & Hm & Hin & Hall). rewrite Hm in Hsize.
  cbn -[RecentFilesView.sum RecentFilesView.range] in Hsize.
  destruct (c_int (RecentFilesView.sum _)) as [h|] eqn:Hh; [|done].
  cbn in Hsize. destruct (c_int (m + 2)) as [w|] eqn:Hw; [|done].
  injection Hsize as <-. cbn.
  apply c_int_Ok in Hh as ->. apply c_int_Ok in Hw as ->. subst rows.
  split; [by rewrite sum_margin, length_range|].
  split.
  - intros i Hi. specialize (Hall (sizeHintForColumn i)).
    rewrite list_elem_of_fmap in Hall. specialize (Hall ltac:(by exists i)). lia.
  - apply list_elem_of_fmap in Hin as (i & -> & Hi). by exists i.
Qed.

End SizeHintLemmas.

Lemma sizeHint_size_witness :
  let size := QSize.mk 82 66 in
  let rows := RecentFilesView.range 3 in
  QSize.height size
    = RecentFilesView.sum ((fun _ => 20) <$> rows) + 2 * Z.of_nat 3 /\
  (forall i, i ∈ rows -> (fun i => 60 + 10 * i) i + 2 <= QSize.width size) /\
  (exists i, i ∈ rows /\ QSize.width size = (fun i => 60 + 10 * i) i + 2).
Proof.
  apply (sizeHint_size (fun _ => 20) (fun i => 60 + 10 * i)
           ["a.bee"; "b.bee"; "c.bee"] (QSize.mk 82 66)).
  reflexivity.
Defined.

(** ** The welcome overlay *)

Section WelcomeOverlayLemmas.

Lemma indexOf_init :
  WelcomeOverlay.indexOf WelcomeOverlay.FilesLayout
    (WelcomeOverlay.layout WelcomeOverlay.init) = -1.
Proof. reflexivity. Qed.

Lemma shown_snoc recents recent :
  WelcomeOverlay.shown (recents ++ [recent])
    = WelcomeOverlay.show recent (WelcomeOverlay.shown recents).
Proof. unfold WelcomeOverlay.shown. by rewrite foldl_snoc. Qed.

End WelcomeOverlayLemmas.

(** X20: the overlay after any number of [show]s: the layout of the
    recent files is in the overlay's layout once, in front, if one of
    the [show]s had files, and it stays there when a later one has
    none; the view lists the files of the last [show]. *)
Theorem WelcomeOverlay_shown (recents : list (list string)) :
  let self := WelcomeOverlay.shown recents in
  WelcomeOverlay.layout self
    = (if decide (Exists (fun recent => recent <> []) recents)
       then [WelcomeOverlay.FilesLayout] else [])
      ++ WelcomeOverlay.layout WelcomeOverlay.init /\
  WelcomeOverlay.files self = default [] (last recents).
Proof.
  cbv zeta. induction recents as [|recent recents [IHlayout IHfiles]] using rev_ind.
  - split; [|done]. by rewrite decide_False by (by intros ?%Exists_nil).
  - rewrite shown_snoc, last_snoc. unfold WelcomeOverlay.show.
    split; [|by destruct (_ && _)].
    cbn [WelcomeOverlay.layout WelcomeOverlay.files].
    rewrite IHlayout.
    destruct (decide (Exists (fun r => r <> []) recents)) as [Hsome|Hnone].
    + rewrite decide_True by (apply Exists_app; by left).
      cbn. by rewrite andb_false_r.
    + cbn [app]. rewrite indexOf_init. cbn [Z.ltb Z.compare].
      rewrite andb_true_r. destruct (decide (recent = [])) as [->|Hne].
      * rewrite bool_decide_true by done. cbn.
        rewrite decide_False; [done|].
        intros [?|Hlast]%Exists_app; [done|].
        by apply Exists_cons in Hlast as [?|?%Exists_nil].
      * rewrite bool_decide_false by done. cbn.
        rewrite decide_True; [done|].
        apply Exists_app. right. by left.
Qed.

(** ** The export dialog *)

Section ExportDialogLemmas.

Import SceneToPixmapExporterDialog.

Variable scaled : QSize.t -> Z -> Z -> QSize.t.

Abbreviation on_width_changed :=
  (SceneToPixmapExporterDialog.on_width_changed scaled).
Abbreviation on_height_changed :=
  (SceneToPixmapExporterDialog.on_height_changed scaled).
Abbreviation apply_edit := (SceneToPixmapExporterDialog.apply_edit scaled).
Abbreviation apply_edits := (SceneToPixmapExporterDialog.apply_edits scaled).

Lemma on_width_changed_ignored fuel w self :
  ignore_change self = true -> on_width_changed (S fuel) w self = Some self.
Proof. intros Hflag. cbn. by rewrite Hflag. Qed.

Lemma on_height_changed_ignored fuel h self :
  ignore_change self = true -> on_height_changed (S fuel) h self = Some self.
Proof. intros Hflag. cbn. by rewrite Hflag. Qed.

Lemma on_width_changed_sets_height fuel w self :
  ignore_change self = false ->
  on_width_changed (S (S fuel)) w self =
  Some (mk (default_size self) false (width_input self)
          (QSpinBox.setValue (QSize.height (scaled (default_size self) w MAX_SIZE))
             (height_input self)).1).
Proof.
  intros Hflag.
  change (on_width_changed (S (S fuel)) w self) with
    (if negb (ignore_change self) then
       self' ← height_input_setValue (on_height_changed (S fuel))
                 (QSize.height (scaled (default_size (set_ignore_change true self))
                                  w MAX_SIZE))
                 (set_ignore_change true self);
       Some (set_ignore_change false self')
     else Some self).
  rewrite Hflag. cbn [negb]. unfold height_input_setValue.
  destruct (QSpinBox.setValue _ _) as [input [v'|]] eqn:Hset; cbn [fst].
  - by rewrite on_height_changed_ignored.
  - done.
Qed.

Lemma on_height_changed_sets_width fuel h self :
  ignore_change self = false ->
  on_height_changed (S (S fuel)) h self =
  Some (mk (default_size self) false
          (QSpinBox.setValue (QSize.width (scaled (default_size self) MAX_SIZE h))
             (width_input self)).1
          (height_input self)).
Proof.
  intros Hflag.
  change (on_height_changed (S (S fuel)) h self) with
    (if negb (ignore_change self) then
       self' ← width_input_setValue (on_width_changed (S fuel))
                 (QSize.width (scaled (default_size (set_ignore_change true self))
                                 MAX_SIZE h))
                 (set_ignore_change true self);
       Some (set_ignore_change false self')
     else Some self).
  rewrite Hflag. cbn [negb]. unfold width_input_setValue.
  destruct (QSpinBox.setValue _ _) as [input [v'|]] eqn:Hset; cbn [fst].
  - by rewrite on_width_changed_ignored.
  - done.
Qed.

Lemma bound_range sb v :
  QSpinBox.minimum sb <= QSpinBox.maximum sb ->
  QSpinBox.minimum sb <= QSpinBox.bound sb v <= QSpinBox.maximum sb.
Proof.
  intros Hle. unfold QSpinBox.bound.
  destruct (Z.ltb_spec v (QSpinBox.minimum sb));
    match goal with |- context [?a <? ?b] => destruct (Z.ltb_spec a b) end; lia.
Qed.

Lemma sized_setValue sb v :
  QSpinBox.minimum sb = MIN_SIZE -> QSpinBox.maximum sb = MAX_SIZE ->
  sized (QSpinBox.setValue v sb).1.
Proof.
  intros Hmin Hmax. unfold sized. cbn. rewrite <- Hmin, <- Hmax.
  split; [done|]. split; [done|]. apply bound_range. rewrite Hmin, Hmax. done.
Qed.

Lemma settled_init default_size : settled (init scaled default_size).
Proof.
  unfold init. split; [done|]. split; by apply sized_setValue.
Qed.

Lemma settled_apply_edit fuel e self :
  settled self ->
  exists self', apply_edit (S (S fuel)) e self = Some self' /\ settled self'.
Proof.
  intros (Hflag & Hwidth & Hheight).
  destruct e as [v|v]; cbn [SceneToPixmapExporterDialog.apply_edit].
  - unfold width_input_setValue.
    pose proof (sized_setValue (width_input self) v
                  ltac:(apply Hwidth) ltac:(apply Hwidth)) as Hnew.
    destruct (QSpinBox.setValue v (width_input self)) as [input [v'|]]; cbn [fst] in Hnew.
    + rewrite on_width_changed_sets_height by done. eexists. split; [done|].
      split; [done|]. split; [done|].
      apply sized_setValue; apply Hheight.
    + eexists. split; [done|]. by split.
  - unfold height_input_setValue.
    pose proof (sized_setValue (height_input self) v
                  ltac:(apply Hheight) ltac:(apply Hheight)) as Hnew.
    destruct (QSpinBox.setValue v (height_input self)) as [input [v'|]]; cbn [fst] in Hnew.
    + rewrite on_height_changed_sets_width by done. eexists. split; [done|].
      split; [done|]. split; [|done].
      apply sized_setValue; apply Hwidth.
    + eexists. split; [done|]. by split.
Qed.

(** X21: the two slots do not feed back into each other: a change of
    the width sets the height from the scaled default size and leaves
    the width input as it is, a change of the height sets the width and
    leaves the height input; both come to an end after at most two
    calls, with [ignore_change] cleared again. *)
Theorem on_changed_no_feedback (fuel : nat) (v : Z) (self : t) :
  ignore_change self = false ->
  on_width_changed (S (S fuel)) v self =
    Some (mk (default_size self) false (width_input self)
            (QSpinBox.setValue
               (QSize.height (scaled (default_size self) v MAX_SIZE))
               (height_input self)).1) /\
  on_height_changed (S (S fuel)) v self =
    Some (mk (default_size self) false
            (QSpinBox.setValue
               (QSize.width (scaled (default_size self) MAX_SIZE v))
               (width_input self)).1
            (height_input self)).
Proof.
  intros Hflag.
  split; [by apply on_width_changed_sets_height
         | by apply on_height_changed_sets_width].
Qed.

(** X22: whatever the default size and whatever the user enters, the
    slots come to an end and [value()] is a size with both sides from
    [MIN_SIZE] to [MAX_SIZE]. *)
Theorem SceneToPixmapExporterDialog_value_in_range (fuel : nat) (default_size : QSize.t) (es : list edit) :
  exists self,
    apply_edits (S (S fuel)) es (init scaled default_size) = Some self /\
    MIN_SIZE <= QSize.width (value self) <= MAX_SIZE /\
    MIN_SIZE <= QSize.height (value self) <= MAX_SIZE.
Proof.
  assert (forall self0, settled self0 ->
            exists self, apply_edits (S (S fuel)) es self0 = Some self /\
                         settled self) as Hrun.
  { induction es as [|e es IH]; intros self0 Hself0.
    - by exists self0.
    - destruct (settled_apply_edit fuel e self0 Hself0) as (self1 & Hstep & Hself1).
      destruct (IH self1 Hself1) as (self & Hrest & Hself).
      exists self. split; [|done].
      cbn [SceneToPixmapExporterDialog.apply_edits]. by rewrite Hstep. }
  destruct (Hrun _ (settled_init default_size))
    as (self & Hself & _ & (_ & _ & Hw) & (_ & _ & Hh)).
  by exists self.
Qed.

End ExportDialogLemmas.

Lemma on_changed_no_feedback_witness :
  let scaled := fun (size : QSize.t) (w h : Z) => QSize.mk (Z.min w h) (Z.min w h) in
  let self := SceneToPixmapExporterDialog.init scaled (QSize.mk 800 600) in
  SceneToPixmapExporterDialog.value
    <$> SceneToPixmapExporterDialog.on_width_changed scaled 2 400 self
    = Some (QSize.mk 800 400).
Proof.
  cbv zeta.
  rewrite (proj1
    (on_changed_no_feedback
       (fun (size : QSize.t) (w h : Z) => QSize.mk (Z.min w h) (Z.min w h))
       0 400
       (SceneToPixmapExporterDialog.init
          (fun (size : QSize.t) (w h : Z) => QSize.mk (Z.min w h) (Z.min w h))
          (QSize.mk 800 600))
       eq_refl)).
  reflexivity.
Defined.

(** ** The integer settings *)

Section IntegerGroupLemmas.

Import IntegerGroup.

Context {Store : Type}.
Variable valueOrDefault : Store -> string -> Z.
Variable setValue : string -> Z -> Store -> Store.
Variable value_changed : Store -> string -> bool.
Variable CHANGED_SYMBOL : string.
Variable TITLE : string.
Variable KEY : string.
Variable MIN : Z.
Variable MAX : Z.

Abbreviation update_title :=
  (IntegerGroup.update_title value_changed CHANGED_SYMBOL TITLE KEY).
Abbreviation on_value_changed :=
  (IntegerGroup.on_value_changed valueOrDefault setValue value_changed
     CHANGED_SYMBOL TITLE KEY).
Abbreviation input_setValue :=
  (IntegerGroup.input_setValue valueOrDefault setValue value_changed
     CHANGED_SYMBOL TITLE KEY).
Abbreviation init :=
  (IntegerGroup.init valueOrDefault value_changed CHANGED_SYMBOL TITLE KEY MIN MAX).
Abbreviation on_restore_defaults :=
  (IntegerGroup.on_restore_defaults valueOrDefault setValue value_changed
     CHANGED_SYMBOL TITLE KEY).

Lemma c_int_in v : - 2 ^ 31 <= v < 2 ^ 31 -> c_int v = Ok v.
Proof.
  intros Hv. unfold c_int.
  destruct (Z.leb_spec (- 2 ^ 31) v); [|lia].
  destruct (Z.ltb_spec v (2 ^ 31)); [done | lia].
Qed.

Lemma bound_min_max sb v :
  QSpinBox.minimum sb <= QSpinBox.maximum sb ->
  QSpinBox.bound sb v
    = Z.max (QSpinBox.minimum sb) (Z.min (QSpinBox.maximum sb) v).
Proof.
  intros Hle. unfold QSpinBox.bound.
  destruct (Z.ltb_spec v (QSpinBox.minimum sb));
    match goal with |- context [?a <? ?b] => destruct (Z.ltb_spec a b) end; lia.
Qed.

(** X23: the value that a new [IntegerGroup] shows is the stored one
    cut twice: to the range 0 to 99 of the fresh spin box, since the
    value is set before the range, and then to [MIN] to [MAX]; a stored
    value above 99 is shown as 99 even where [MAX] allows it. *)
Theorem IntegerGroup_init_value (settings : Store) :
  - 2 ^ 31 <= valueOrDefault settings KEY < 2 ^ 31 ->
  - 2 ^ 31 <= MIN -> MIN <= MAX -> MAX < 2 ^ 31 ->
  exists self,
    init settings = Ok self /\
    QSpinBox.value (input self)
      = Z.max MIN (Z.min MAX (Z.max 0 (Z.min 99 (valueOrDefault settings KEY)))) /\
    QSpinBox.minimum (input self) = MIN /\
    QSpinBox.maximum (input self) = MAX /\
    ignore_value_changed self = false.
Proof.
  intros Hv Hmin Hle Hmax. unfold IntegerGroup.init.
  rewrite !c_int_in by lia. cbn -[Z.max Z.min QSpinBox.bound Z.pow].
  eexists. split; [done|]. cbn -[Z.max Z.min QSpinBox.bound].
  destruct (Z.ltb_spec MIN MAX).
  - rewrite !bound_min_max by (cbn; lia). cbn -[Z.max Z.min]. done.
  - assert (MIN = MAX) as -> by lia.
    rewrite !bound_min_max by (cbn; lia). cbn -[Z.max Z.min]. done.
Qed.

(** X24: restoring the defaults never writes to the settings: the input
    takes the value of the settings, cut to its range, its signal is
    ignored, and [ignore_value_changed] is cleared again. *)
Theorem on_restore_defaults_keeps_settings (settings : Store) (self : t) :
  - 2 ^ 31 <= valueOrDefault settings KEY < 2 ^ 31 ->
  exists self',
    on_restore_defaults (settings, self) = Ok (settings, self') /\
    input self' = (QSpinBox.setValue (valueOrDefault settings KEY) (input self)).1 /\
    ignore_value_changed self' = false /\
    title self' = title (update_title settings self).
Proof.
  intros Hv. unfold IntegerGroup.on_restore_defaults, IntegerGroup.input_setValue.
  rewrite c_int_in by done. cbn -[QSpinBox.setValue].
  destruct (QSpinBox.setValue _ _) as [input' [v'|]]; cbn; by eexists.
Qed.

(** X25: an edit keeps the settings and the input in step, for settings
    that return what was stored: after it [valueOrDefault] is the value
    that the input shows, and an edit that does not change the shown
    value writes nothing. *)
Theorem input_setValue_agrees (settings : Store) (self : t) (v : Z) :
  (forall s w, valueOrDefault (setValue KEY w s) KEY = w) ->
  ignore_value_changed self = false ->
  - 2 ^ 31 <= v < 2 ^ 31 ->
  QSpinBox.value (input self) = valueOrDefault settings KEY ->
  exists settings' self',
    input_setValue v (settings, self) = Ok (settings', self') /\
    QSpinBox.value (input self') = QSpinBox.bound (input self) v /\
    valueOrDefault settings' KEY = QSpinBox.value (input self') /\
    (QSpinBox.bound (input self) v = QSpinBox.value (input self) ->
     settings' = settings).
Proof.
  intros Hlaw Hflag Hv Hagree. unfold IntegerGroup.input_setValue.
  rewrite c_int_in by done. cbn -[QSpinBox.bound].
  destruct (Z.eqb_spec (QSpinBox.bound (input self) v) (QSpinBox.value (input self)))
    as [Heq|Hne].
  - do 2 eexists. split; [done|]. cbn -[QSpinBox.bound].
    split; [done|]. split; [by rewrite Heq|done].
  - unfold IntegerGroup.on_value_changed. cbn -[QSpinBox.bound]. rewrite Hflag.
    rewrite bool_decide_true by (by rewrite <- Hagree).
    do 2 eexists. split; [done|]. cbn -[QSpinBox.bound].
    split; [done|]. split; [by rewrite Hlaw|done].
Qed.

End IntegerGroupLemmas.

Lemma IntegerGroup_init_value_witness :
  exists self,
    IntegerGroup.init (fun (s : Z) (_ : string) => s)
      (fun (s : Z) (_ : string) => negb (s =? 0)) "*" "Arrange Gap:"
      "Items/arrange_gap" 0 200 150 = Ok self /\
    QSpinBox.value (IntegerGroup.input self)
      = Z.max 0 (Z.min 200 (Z.max 0 (Z.min 99 150))) /\
    QSpinBox.minimum (IntegerGroup.input self) = 0 /\
    QSpinBox.maximum (IntegerGroup.input self) = 200 /\
    IntegerGroup.ignore_value_changed self = false.
Proof.
  apply (IntegerGroup_init_value (fun (s : Z) (_ : string) => s)
           (fun (s : Z) (_ : string) => negb (s =? 0)) "*" "Arrange Gap:"
           "Items/arrange_gap" 0 200 150); cbn; lia.
Defined.

Lemma on_restore_defaults_keeps_settings_witness :
  exists self',
    IntegerGroup.on_restore_defaults (fun (s : Z) (_ : string) => s)
      (fun (_ : string) (w : Z) (_ : Z) => w)
      (fun (s : Z) (_ : string) => negb (s =? 0)) "*" "Arrange Gap:"
      "Items/arrange_gap"
      (0, IntegerGroup.mk "Arrange Gap: *" false (QSpinBox.mk 0 200 25))
      = Ok (0, self') /\
    IntegerGroup.input self' = (QSpinBox.setValue 0 (QSpinBox.mk 0 200 25)).1 /\
    IntegerGroup.ignore_value_changed self' = false /\
    IntegerGroup.title self' = "Arrange Gap:".
Proof.
  apply (on_restore_defaults_keeps_settings (fun (s : Z) (_ : string) => s)
           (fun (_ : string) (w : Z) (_ : Z) => w)
           (fun (s : Z) (_ : string) => negb (s =? 0)) "*" "Arrange Gap:"
           "Items/arrange_gap" 0
           (IntegerGroup.mk "Arrange Gap: *" false (QSpinBox.mk 0 200 25))).
  cbn. lia.
Defined.

Lemma input_setValue_agrees_witness :
  exists settings' self',
    IntegerGroup.input_setValue (fun (s : Z) (_ : string) => s)
      (fun (_ : string) (w : Z) (_ : Z) => w)
      (fun (s : Z) (_ : string) => negb (s =? 0)) "*" "Arrange Gap:"
      "Items/arrange_gap" 250
      (25, IntegerGroup.mk "Arrange Gap: *" false (QSpinBox.mk 0 200 25))
      = Ok (settings', self') /\
    QSpinBox.value (IntegerGroup.input self') = 200 /\
    settings' = QSpinBox.value (IntegerGroup.input self') /\
    (200 = 25 -> settings' = 25).
Proof.
  apply (input_setValue_agrees (fun (s : Z) (_ : string) => s)
           (fun (_ : string) (w : Z) (_ : Z) => w)
           (fun (s : Z) (_ : string) => negb (s =? 0)) "*" "Arrange Gap:"
           "Items/arrange_gap" 25
           (IntegerGroup.mk "Arrange Gap: *" false (QSpinBox.mk 0 200 25)) 250).
  - reflexivity.
  - reflexivity.
  - cbn. lia.
  - reflexivity.
Defined.
